(** * A shallow embedding of the mutating admission webhook (controller.go)

    The webhook receives an AdmissionReview over HTTP, decodes it
    ([parseRequest]) and computes the admission response ([addLabel]): for a
    Pod it derives the value of the [service] label from the labels [appName]
    and [car_id] and returns a JSON Patch that sets it.

    Go strings and byte slices are modelled as [string] (a sequence of 8-bit
    characters), Go maps as [gmap], a nil map or nil pointer as [None].  The
    package-level variables [clientset] and [initOnce] live in an explicit
    [World] that every effectful function threads; the calls made to the
    Kubernetes API through the client are recorded there.  Library functions
    of client-go, apimachinery and encoding/json are collected in [Env]. *)

From Stdlib Require Import String Ascii List Bool Arith Lia.
From stdpp Require Import base option gmap strings.

Open Scope string_scope.

(* ===================================================================== *)
(** ** Characters that cannot be written inside a literal                *)
(* ===================================================================== *)

Definition LF : string := String "010"%char "".
Definition TAB : string := String "009"%char "".
Definition DQ : string := String "034"%char "".

(* ===================================================================== *)
(** ** Data model (k8s.io/api/admission/v1 and apimachinery)             *)
(* ===================================================================== *)

Record GroupVersionKind := {
  Group : string;
  Version : string;
  Kind : string
}.

(** [runtime.RawExtension]: the raw bytes of the submitted object. *)
Definition RawExtension := string.

(** [runtime.Object] as produced from a RawExtension: it wraps the raw bytes,
    and is nil when they are empty or null.  It is identified here by the
    bytes it was made from. *)
Definition Object := string.

Inductive PatchType := PatchTypeJSONPatch.

Record AdmissionRequest := {
  UID : string;
  RequestKind : GroupVersionKind;
  Namespace : string;
  RequestObject : RawExtension
}.

Record AdmissionResponse := {
  RespUID : string;
  Allowed : bool;
  Patch : option string;          (* []byte, nil when unset *)
  RespPatchType : option PatchType (* *PatchType, nil when unset *)
}.

Record AdmissionReview := {
  TypeMeta : GroupVersionKind;
  Request : option AdmissionRequest;   (* *AdmissionRequest *)
  Response : option AdmissionResponse  (* *AdmissionResponse *)
}.

(** What the code reads of [unstructured.Unstructured] through its
    accessors GetKind, GetName, GetNamespace and GetLabels.  GetLabels
    returns a nil map when the object carries no labels map. *)
Record Unstructured := {
  GetKind : string;
  GetName : string;
  GetNamespace : string;
  GetLabels : option (gmap string string)
}.

(** A Namespace object as returned by the API server. *)
Record NamespaceObj := {
  NsName : string;
  NsLabels : option (gmap string string)
}.

(** Errors of the API client: the object does not exist, or the request
    did not get through, or the client refused to build the request. *)
Inductive apiError :=
| NotFound (name : string)
| TransportError (msg : string)
| RequestError (msg : string).

(** [*kubernetes.Clientset], reduced to the one call the code makes:
    [c.CoreV1().Namespaces().Get(ctx, name, opts)]. *)
Record Clientset := {
  NamespacesGet : string -> NamespaceObj + apiError
}.

Record Config := { Host : string }.

(** The errors the program builds with [fmt.Errorf]. *)
Inductive error :=
| ErrBuildKubeconfig (cause : string)
| ErrCreateClientset (cause : string)
| ErrGetClient (cause : error)
| ErrConvertObject (cause : string)
| ErrToUnstructured (cause : string)
| ErrFetchNamespace (namespaceName : string) (cause : apiError)
| ErrContentType
| ErrDecode (cause : string)
| ErrMissingRequest.

Definition apiErrorMessage (e : apiError) : string :=
  match e with
  | NotFound name => "namespaces " +:+ DQ +:+ name +:+ DQ +:+ " not found"
  | TransportError msg => msg
  | RequestError msg => msg
  end.

(** [err.Error()]. *)
Fixpoint Error (e : error) : string :=
  match e with
  | ErrBuildKubeconfig cause => "failed to build kubeconfig: " +:+ cause
  | ErrCreateClientset cause =>
      "failed to create Kubernetes clientset: " +:+ cause
  | ErrGetClient cause => "failed to get Kubernetes client: " +:+ Error cause
  | ErrConvertObject cause => "failed to convert object: " +:+ cause
  | ErrToUnstructured cause => "failed to convert to unstructured: " +:+ cause
  | ErrFetchNamespace namespaceName cause =>
      "failed to fetch namespace " +:+ namespaceName +:+ ": "
        +:+ apiErrorMessage cause
  | ErrContentType => "invalid Content-Type, expected application/json"
  | ErrDecode cause => "failed to decode admission review: " +:+ cause
  | ErrMissingRequest => "invalid admission review: missing request field"
  end.

(* ===================================================================== *)
(** ** The environment: library functions the program calls              *)
(* ===================================================================== *)

(** A call either returns a value or panics (a nil pointer dereference, or a
    panic inside a library function). *)
Inductive Outcome (A : Type) :=
| Done (a : A)
| Panic (msg : string).
Arguments Done {A} a.
Arguments Panic {A} msg.

(** [DefaultUnstructuredConverter.ToUnstructured] returns the object, or an
    error, or panics: it panics on the nil object that empty or null bytes
    convert to, and on bytes that are not a JSON object. *)

Record Env := {
  Getenv : string -> string;
  filepath_Join : list string -> string;
  InClusterConfig : Config + string;
  BuildConfigFromFlags : string -> string -> Config + string;
  NewForConfig : Config -> Clientset + string;
  Convert_runtime_RawExtension_To_runtime_Object : RawExtension -> Object + string;
  ToUnstructured : Object -> Outcome (Unstructured + string);
  json_Decode : string -> AdmissionReview + string
}.

(* ===================================================================== *)
(** ** The world: package-level variables and the API calls made         *)
(* ===================================================================== *)

Inductive Verb := VGet | VList | VWatch | VCreate | VUpdate | VPatch | VDelete.

Record ApiCall := {
  verb : Verb;
  resource : string;
  objName : string
}.

Definition isWrite (c : ApiCall) : bool :=
  match verb c with
  | VGet | VList | VWatch => false
  | VCreate | VUpdate | VPatch | VDelete => true
  end.

Definition isNamespaceLookup (c : ApiCall) : bool :=
  match verb c with
  | VGet => String.eqb (resource c) "namespaces"
  | _ => false
  end.

Record World := {
  clientset : option Clientset;  (* var clientset *kubernetes.Clientset *)
  initOnce : bool;               (* sync.Once: true once Do has run *)
  calls : list ApiCall           (* API requests issued so far, oldest first *)
}.

(** The GET of one namespace, and its recording. *)
Definition nsLookup (name : string) : ApiCall :=
  {| verb := VGet; resource := "namespaces"; objName := name |}.

Definition logCall (c : ApiCall) (w : World) : World :=
  {| clientset := clientset w; initOnce := initOnce w;
     calls := calls w ++ [c] |}.

Definition M (A : Type) : Type := World -> Outcome A * World.

Definition ret {A} (a : A) : M A := fun w => (Done a, w).

Definition bind {A B} (m : M A) (k : A -> M B) : M B :=
  fun w => match m w with
           | (Done a, w') => k a w'
           | (Panic msg, w') => (Panic msg, w')
           end.

Definition panic {A} (msg : string) : M A := fun w => (Panic msg, w).

Notation "x <- m ;; k" := (bind m (fun x => k))
  (at level 100, m at next level, right associativity).

(** Dereferencing a pointer: nil panics. *)
Definition deref {A} (p : option A) : M A :=
  match p with
  | Some a => ret a
  | None => panic "invalid memory address or nil pointer dereference"
  end.

(* ===================================================================== *)
(** ** The Kubernetes client singleton                                   *)
(* ===================================================================== *)

Section Program.

Variable env : Env.

Definition homeDir : string :=
  let h := Getenv env "HOME" in
  if negb (String.eqb h "") then h else Getenv env "USERPROFILE".

Definition getKubeConfigPath : string :=
  let kubeconfig := Getenv env "KUBECONFIG" in
  if negb (String.eqb kubeconfig "") then kubeconfig
  else filepath_Join env [homeDir; ".kube"; "config"].

Definition initializeClient : option Clientset * option error :=
  let config :=
    match InClusterConfig env with
    | inl config => inl config
    | inr _ => BuildConfigFromFlags env "" getKubeConfigPath
    end in
  match config with
  | inr err => (None, Some (ErrBuildKubeconfig err))
  | inl config =>
      match NewForConfig env config with
      | inr err => (None, Some (ErrCreateClientset err))
      | inl clientset => (Some clientset, None)
      end
  end.

(** [initOnce.Do] runs the initializer on the first call only; later calls
    return the stored [clientset] and a nil error, whatever the first run
    produced. *)
Definition GetKubeClient : M (option Clientset * option error) :=
  fun w =>
    if initOnce w then (Done (clientset w, None), w)
    else
      let '(c, err) := initializeClient in
      (Done (c, err), {| clientset := c; initOnce := true; calls := calls w |}).

(** [Namespaces().Get] as the client behaves: it refuses the empty name with
    an error of its own and sends nothing; every other name is one GET on
    the namespaces resource. *)
Definition Namespaces_Get (cs : Clientset) (name : string)
  : NamespaceObj + apiError :=
  if String.eqb name "" then inr (RequestError "resource name may not be empty")
  else NamespacesGet cs name.

(** [c.CoreV1().Namespaces().Get(context.TODO(), name, metav1.GetOptions{})];
    a nil client panics. *)
Definition CoreV1_Namespaces_Get (c : option Clientset) (name : string)
  : M (NamespaceObj + apiError) :=
  cs <- deref c ;;
  fun w =>
    (Done (Namespaces_Get cs name),
     if String.eqb name "" then w else logCall (nsLookup name) w).

(* ===================================================================== *)
(** ** addLabel                                                          *)
(* ===================================================================== *)

(** [v, ok := m[k]] on a map that may be nil. *)
Definition mapIndex (m : option (gmap string string)) (k : string)
  : string * bool :=
  match m with
  | None => ("", false)
  | Some m =>
      match m !! k with
      | Some v => (v, true)
      | None => ("", false)
      end
  end.

Definition hasLabel (labels : option (gmap string string)) (key : string)
  : bool :=
  snd (mapIndex labels key).

Definition isNil {A} (p : option A) : bool :=
  match p with None => true | Some _ => false end.

Definition serviceLabelKey : string := "service".
Definition serviceLabelPath : string := "/metadata/labels/service".

(** The pieces of the raw string literals of the three patch documents,
    byte for byte: the source concatenates them with [serviceLabelPath] and
    [serviceVal]. *)
Definition addMapAndKeyOpen : string :=
  "[" +:+ LF +:+
  TAB +:+ TAB +:+ "  { " +:+ DQ +:+ "op" +:+ DQ +:+ ": " +:+ DQ +:+ "add" +:+ DQ
    +:+ ", " +:+ DQ +:+ "path" +:+ DQ +:+ ": " +:+ DQ +:+ "/metadata/labels"
    +:+ DQ +:+ ", " +:+ DQ +:+ "value" +:+ DQ +:+ ": {} }," +:+ LF +:+
  TAB +:+ TAB +:+ "  { " +:+ DQ +:+ "op" +:+ DQ +:+ ": " +:+ DQ +:+ "add" +:+ DQ
    +:+ ", " +:+ DQ +:+ "path" +:+ DQ +:+ ": " +:+ DQ.

Definition addKeyOpen : string :=
  "[" +:+ LF +:+
  TAB +:+ TAB +:+ "  { " +:+ DQ +:+ "op" +:+ DQ +:+ ": " +:+ DQ +:+ "add" +:+ DQ
    +:+ ", " +:+ DQ +:+ "path" +:+ DQ +:+ ": " +:+ DQ.

Definition replaceKeyOpen : string :=
  "[" +:+ LF +:+
  TAB +:+ TAB +:+ "  { " +:+ DQ +:+ "op" +:+ DQ +:+ ": " +:+ DQ +:+ "replace"
    +:+ DQ +:+ ", " +:+ DQ +:+ "path" +:+ DQ +:+ ": " +:+ DQ.

Definition valueOpen : string :=
  DQ +:+ ", " +:+ DQ +:+ "value" +:+ DQ +:+ ": " +:+ DQ.

Definition patchClose : string :=
  DQ +:+ " }" +:+ LF +:+ TAB +:+ TAB +:+ "]".

Definition patchAddMapAndKey (serviceVal : string) : string :=
  addMapAndKeyOpen +:+ serviceLabelPath +:+ valueOpen +:+ serviceVal
    +:+ patchClose.

Definition patchAddKey (serviceVal : string) : string :=
  addKeyOpen +:+ serviceLabelPath +:+ valueOpen +:+ serviceVal +:+ patchClose.

Definition patchReplaceKey (serviceVal : string) : string :=
  replaceKeyOpen +:+ serviceLabelPath +:+ valueOpen +:+ serviceVal
    +:+ patchClose.

(** [&admissionv1.AdmissionResponse{Allowed: true, UID: uid}]. *)
Definition allowResponse (uid : string) : AdmissionResponse :=
  {| RespUID := uid; Allowed := true; Patch := None; RespPatchType := None |}.

Definition withPatch (r : AdmissionResponse) (patch : string)
  : AdmissionResponse :=
  {| RespUID := RespUID r; Allowed := Allowed r;
     Patch := Some patch; RespPatchType := Some PatchTypeJSONPatch |}.

(** The namespace the lookup is made for. *)
Definition effectiveNamespace (req : AdmissionRequest) (u : Unstructured)
  : string :=
  let namespaceName := Namespace req in
  let namespaceName :=
    if String.eqb namespaceName "" then GetNamespace u else namespaceName in
  let namespaceName :=
    if String.eqb namespaceName "" then "default" else namespaceName in
  namespaceName.

(** The value for the service label: the first switch of addLabel.  [None]
    is the default case, where nothing can be derived. *)
Definition deriveServiceVal (podLabels : option (gmap string string))
  : option string :=
  let '(carID, hasCar) := mapIndex podLabels "car_id" in
  let '(appName, hasApp) := mapIndex podLabels "appName" in
  if hasApp && hasCar then Some (appName +:+ "-" +:+ carID)
  else if hasApp then Some appName
  else if hasCar then Some carID
  else None.

(** The second switch of addLabel: which patch document is attached. *)
Definition buildPatch (podLabels : option (gmap string string))
    (serviceVal : string) : string :=
  if isNil podLabels then patchAddMapAndKey serviceVal
  else if negb (hasLabel podLabels serviceLabelKey) then patchAddKey serviceVal
  else patchReplaceKey serviceVal.

(** The part of addLabel after the namespace check. *)
Definition labelDecision (uid : string) (podLabels : option (gmap string string))
  : AdmissionResponse :=
  match deriveServiceVal podLabels with
  | None => allowResponse uid
  | Some serviceVal =>
      let '(val, ok) := mapIndex podLabels serviceLabelKey in
      if ok && String.eqb val serviceVal then allowResponse uid
      else
        let reviewResponse := allowResponse uid in
        withPatch reviewResponse (buildPatch podLabels serviceVal)
  end.

Definition addLabel (ar : AdmissionReview)
  : M (option AdmissionResponse * option error) :=
  got <- GetKubeClient ;;
  let '(c, err) := got in
  match err with
  | Some err => ret (None, Some (ErrGetClient err))
  | None =>
    req <- deref (Request ar) ;;
    match Convert_runtime_RawExtension_To_runtime_Object env (RequestObject req) with
    | inr err => ret (None, Some (ErrConvertObject err))
    | inl obj =>
      match ToUnstructured env obj with
      | Panic msg => panic msg
      | Done (inr err) => ret (None, Some (ErrToUnstructured err))
      | Done (inl u) =>
        if negb (String.eqb (GetKind u) "Pod") then
          ret (Some (allowResponse (UID req)), None)
        else
          let namespaceName := effectiveNamespace req u in
          r <- CoreV1_Namespaces_Get c namespaceName ;;
          match r with
          | inr err => ret (None, Some (ErrFetchNamespace namespaceName err))
          | inl _ =>
              ret (Some (labelDecision (UID req) (GetLabels u)), None)
          end
      end
    end
  end.

(* ===================================================================== *)
(** ** parseRequest and the HTTP handler                                 *)
(* ===================================================================== *)

Record HttpRequest := {
  Header : gmap string (list string);
  Body : string;
  RequestURI : string
}.

(** [h.Get(key)]: the first value stored under the key, the empty string
    when there is none. *)
Definition Header_Get (h : gmap string (list string)) (key : string)
  : string :=
  match h !! key with
  | Some (v :: _) => v
  | _ => ""
  end.

Definition parseRequest (r : HttpRequest)
  : option AdmissionReview * option error :=
  if negb (String.eqb (Header_Get (Header r) "Content-Type") "application/json")
  then (None, Some ErrContentType)
  else
    match json_Decode env (Body r) with
    | inr err => (None, Some (ErrDecode err))
    | inl ar =>
        if isNil (Request ar) then (None, Some ErrMissingRequest)
        else (Some ar, None)
    end.

Inductive HttpBody :=
| PlainText (text : string)
| ReviewJSON (review : AdmissionReview).  (* json.Marshal of the review *)

Record HttpResponse := {
  StatusCode : nat;
  ContentType : string;
  RespBody : HttpBody
}.

(** [http.Error(w, msg, code)]. *)
Definition http_Error (msg : string) (code : nat) : HttpResponse :=
  {| StatusCode := code;
     ContentType := "text/plain; charset=utf-8";
     RespBody := PlainText (msg +:+ LF) |}.

Definition StatusBadRequest : nat := 400.
Definition StatusInternalServerError : nat := 500.
Definition StatusOK : nat := 200.

Definition addLabelHook (r : HttpRequest) : M HttpResponse :=
  let '(in_, err) := parseRequest r in
  match err with
  | Some err => ret (http_Error (Error err) StatusBadRequest)
  | None =>
      in_ <- deref in_ ;;
      res <- addLabel in_ ;;
      let '(out, err) := res in
      let admissionReviewResponse :=
        {| TypeMeta := TypeMeta in_; Request := None; Response := out |} in
      match err with
      | Some err => ret (http_Error (Error err) StatusInternalServerError)
      | None =>
          ret {| StatusCode := StatusOK;
                 ContentType := "application/json";
                 RespBody := ReviewJSON admissionReviewResponse |}
      end
  end.

End Program.

(* ===================================================================== *)
(** ** JSON text (RFC 8259) and JSON Patch documents (RFC 6902)          *)
(* ===================================================================== *)

(** The reference against which the patch bytes are judged: a recogniser of
    JSON texts that also builds the value, and a reader of JSON Patch
    documents.  Both run over the text one character (one token) at a time
    with an explicit stack, so they are total.  String and number values keep
    their lexeme as written; escape sequences are checked, not decoded. *)
Module Json.

#[local] Unset Elimination Schemes.
Inductive json :=
| JNull
| JBool (b : bool)
| JNumber (lexeme : string)
| JString (lexeme : string)
| JArray (elems : list json)
| JObject (members : list (string * json)).
#[local] Set Elimination Schemes.

Inductive token :=
| TLBrace | TRBrace | TLBracket | TRBracket | TColon | TComma
| TString (lexeme : string)
| TNumber (lexeme : string)
| TTrue | TFalse | TNull.

Inductive numState :=
| NMinus | NZero | NInt | NDot | NFrac | NExp | NExpSign | NExpDigits.

Inductive lexState :=
| LStart
| LStr (acc : string)
| LEsc (acc : string)
| LHex (acc : string) (n : nat)
| LNum (acc : string) (st : numState)
| LLit (rest : string) (tok : token).

Definition code (c : ascii) : nat := nat_of_ascii c.

Definition between (lo hi : nat) (c : ascii) : bool :=
  Nat.leb lo (code c) && Nat.leb (code c) hi.

Definition isDigit : ascii -> bool := between 48 57.
Definition isDigit19 : ascii -> bool := between 49 57.
Definition isHex (c : ascii) : bool :=
  isDigit c || between 65 70 c || between 97 102 c.
Definition isWs (c : ascii) : bool :=
  Nat.eqb (code c) 32 || Nat.eqb (code c) 9 || Nat.eqb (code c) 10
  || Nat.eqb (code c) 13.
Definition isExp (c : ascii) : bool :=
  Ascii.eqb c "e" || Ascii.eqb c "E".
Definition isSign (c : ascii) : bool :=
  Ascii.eqb c "+" || Ascii.eqb c "-".
Definition isSimpleEscape (c : ascii) : bool :=
  Ascii.eqb c "034" || Ascii.eqb c "092" || Ascii.eqb c "/" || Ascii.eqb c "b"
  || Ascii.eqb c "f" || Ascii.eqb c "n" || Ascii.eqb c "r" || Ascii.eqb c "t".

(** A character that stands for itself inside a JSON string: not the quote,
    not the backslash, not a control character. *)
Definition plainChar (c : ascii) : bool :=
  negb (Ascii.eqb c "034") && negb (Ascii.eqb c "092") && Nat.leb 32 (code c).

Fixpoint plainString (s : string) : bool :=
  match s with
  | "" => true
  | String c s' => plainChar c && plainString s'
  end.

Definition snoc (s : string) (c : ascii) : string := s +:+ String c "".

(** The first character of a token. *)
Definition startChar (c : ascii) : option (lexState * list token) :=
  if isWs c then Some (LStart, [])
  else if Ascii.eqb c "{" then Some (LStart, [TLBrace])
  else if Ascii.eqb c "}" then Some (LStart, [TRBrace])
  else if Ascii.eqb c "[" then Some (LStart, [TLBracket])
  else if Ascii.eqb c "]" then Some (LStart, [TRBracket])
  else if Ascii.eqb c ":" then Some (LStart, [TColon])
  else if Ascii.eqb c "," then Some (LStart, [TComma])
  else if Ascii.eqb c "034" then Some (LStr "", [])
  else if Ascii.eqb c "-" then Some (LNum (String c "") NMinus, [])
  else if Ascii.eqb c "0" then Some (LNum (String c "") NZero, [])
  else if isDigit19 c then Some (LNum (String c "") NInt, [])
  else if Ascii.eqb c "t" then Some (LLit "rue" TTrue, [])
  else if Ascii.eqb c "f" then Some (LLit "alse" TFalse, [])
  else if Ascii.eqb c "n" then Some (LLit "ull" TNull, [])
  else None.

(** number = [ minus ] int [ frac ] [ exp ] *)
Definition numStep (st : numState) (c : ascii) : option numState :=
  match st with
  | NMinus =>
      if Ascii.eqb c "0" then Some NZero
      else if isDigit19 c then Some NInt else None
  | NZero =>
      if Ascii.eqb c "." then Some NDot
      else if isExp c then Some NExp else None
  | NInt =>
      if isDigit c then Some NInt
      else if Ascii.eqb c "." then Some NDot
      else if isExp c then Some NExp else None
  | NDot => if isDigit c then Some NFrac else None
  | NFrac =>
      if isDigit c then Some NFrac
      else if isExp c then Some NExp else None
  | NExp =>
      if isSign c then Some NExpSign
      else if isDigit c then Some NExpDigits else None
  | NExpSign => if isDigit c then Some NExpDigits else None
  | NExpDigits => if isDigit c then Some NExpDigits else None
  end.

Definition numFinal (st : numState) : bool :=
  match st with
  | NZero | NInt | NFrac | NExpDigits => true
  | NMinus | NDot | NExp | NExpSign => false
  end.

(** One character of input: the next state and the tokens completed. *)
Definition step (st : lexState) (c : ascii) : option (lexState * list token) :=
  match st with
  | LStart => startChar c
  | LStr acc =>
      if Ascii.eqb c "034" then Some (LStart, [TString acc])
      else if Ascii.eqb c "092" then Some (LEsc (snoc acc c), [])
      else if plainChar c then Some (LStr (snoc acc c), [])
      else None
  | LEsc acc =>
      if isSimpleEscape c then Some (LStr (snoc acc c), [])
      else if Ascii.eqb c "u" then Some (LHex (snoc acc c) 4, [])
      else None
  | LHex acc n =>
      if isHex c then
        match n with
        | S (S n') => Some (LHex (snoc acc c) (S n'), [])
        | _ => Some (LStr (snoc acc c), [])
        end
      else None
  | LNum acc n =>
      match numStep n c with
      | Some n' => Some (LNum (snoc acc c) n', [])
      | None =>
          if numFinal n then
            match startChar c with
            | Some (st', toks) => Some (st', TNumber acc :: toks)
            | None => None
            end
          else None
      end
  | LLit rest tok =>
      match rest with
      | String e rest' =>
          if Ascii.eqb c e then
            match rest' with
            | "" => Some (LStart, [tok])
            | _ => Some (LLit rest' tok, [])
            end
          else None
      | "" => None
      end
  end.

(** The state reached and the tokens completed after reading [s]. *)
Fixpoint lexRun (st : lexState) (s : string) : option (lexState * list token) :=
  match s with
  | "" => Some (st, [])
  | String c s' =>
      match step st c with
      | Some (st', toks) =>
          match lexRun st' s' with
          | Some (st'', toks') => Some (st'', (toks ++ toks')%list)
          | None => None
          end
      | None => None
      end
  end.

(** What the end of the input completes. *)
Definition lexEnd (st : lexState) : option (list token) :=
  match st with
  | LStart => Some []
  | LNum acc n => if numFinal n then Some [TNumber acc] else None
  | _ => None
  end.

Definition lex (s : string) : option (list token) :=
  match lexRun LStart s with
  | Some (st, toks) =>
      match lexEnd st with
      | Some last => Some ((toks ++ last)%list)
      | None => None
      end
  | None => None
  end.

(** The containers still open; elements and members newest first. *)
Inductive frame :=
| FArr (elems : list json)
| FObj (members : list (string * json)) (key : string).

Inductive pstate :=
| PValue (stk : list frame)
| PArrStart (stk : list frame)
| PObjStart (stk : list frame)
| PKey (members : list (string * json)) (stk : list frame)
| PColon (members : list (string * json)) (key : string) (stk : list frame)
| PAfter (v : json) (stk : list frame).

Definition scalar (t : token) : option json :=
  match t with
  | TString s => Some (JString s)
  | TNumber s => Some (JNumber s)
  | TTrue => Some (JBool true)
  | TFalse => Some (JBool false)
  | TNull => Some JNull
  | _ => None
  end.

Definition valueStart (t : token) (stk : list frame) : option pstate :=
  match t with
  | TLBracket => Some (PArrStart stk)
  | TLBrace => Some (PObjStart stk)
  | _ =>
      match scalar t with
      | Some v => Some (PAfter v stk)
      | None => None
      end
  end.

Definition pstep (st : pstate) (t : token) : option pstate :=
  match st with
  | PValue stk => valueStart t stk
  | PArrStart stk =>
      match t with
      | TRBracket => Some (PAfter (JArray []) stk)
      | _ => valueStart t (FArr [] :: stk)
      end
  | PObjStart stk =>
      match t with
      | TRBrace => Some (PAfter (JObject []) stk)
      | TString k => Some (PColon [] k stk)
      | _ => None
      end
  | PKey ms stk =>
      match t with
      | TString k => Some (PColon ms k stk)
      | _ => None
      end
  | PColon ms k stk =>
      match t with
      | TColon => Some (PValue (FObj ms k :: stk))
      | _ => None
      end
  | PAfter v stk =>
      match stk, t with
      | FArr es :: stk', TComma => Some (PValue (FArr (v :: es) :: stk'))
      | FArr es :: stk', TRBracket =>
          Some (PAfter (JArray (rev (v :: es))) stk')
      | FObj ms k :: stk', TComma => Some (PKey ((k, v) :: ms) stk')
      | FObj ms k :: stk', TRBrace =>
          Some (PAfter (JObject (rev ((k, v) :: ms))) stk')
      | _, _ => None
      end
  end.

Fixpoint prun (st : pstate) (ts : list token) : option json :=
  match ts with
  | [] =>
      match st with
      | PAfter v [] => Some v
      | _ => None
      end
  | t :: ts' =>
      match pstep st t with
      | Some st' => prun st' ts'
      | None => None
      end
  end.

(** A JSON text is one value, with white space around it at most. *)
Definition parse (s : string) : option json :=
  match lex s with
  | Some ts => prun (PValue []) ts
  | None => None
  end.

(** *** JSON Patch *)

Inductive opKind := OpAdd | OpRemove | OpReplace | OpMove | OpCopy | OpTest.

Record operation := {
  op : opKind;
  path : string;
  value : option json;
  from : option string
}.

Definition opKind_of (s : string) : option opKind :=
  if String.eqb s "add" then Some OpAdd
  else if String.eqb s "remove" then Some OpRemove
  else if String.eqb s "replace" then Some OpReplace
  else if String.eqb s "move" then Some OpMove
  else if String.eqb s "copy" then Some OpCopy
  else if String.eqb s "test" then Some OpTest
  else None.

(** RFC 6901: a pointer is a sequence of reference tokens, each led by a
    slash; a tilde is followed by 0 or 1. *)
Fixpoint tildesEscaped (s : string) : bool :=
  match s with
  | "" => true
  | String c s' =>
      if Ascii.eqb c "~" then
        match s' with
        | String d s'' =>
            (Ascii.eqb d "0" || Ascii.eqb d "1") && tildesEscaped s''
        | "" => false
        end
      else tildesEscaped s'
  end.

Definition isPointer (p : string) : bool :=
  match p with
  | "" => true
  | String c _ => Ascii.eqb c "/" && tildesEscaped p
  end.

Definition memberValues (k : string) (ms : list (string * json)) : list json :=
  map snd (filter (fun m => String.eqb (fst m) k) ms).

(** An operation object has exactly one op member and one path member, and
    the members its kind asks for. *)
Definition readOperation (j : json) : option operation :=
  match j with
  | JObject ms =>
      match memberValues "op" ms, memberValues "path" ms with
      | [JString o], [JString p] =>
          match opKind_of o with
          | Some k =>
              if isPointer p then
                match k with
                | OpAdd | OpReplace | OpTest =>
                    match memberValues "value" ms with
                    | [v] => Some {| op := k; path := p; value := Some v;
                                     from := None |}
                    | _ => None
                    end
                | OpMove | OpCopy =>
                    match memberValues "from" ms with
                    | [JString f] =>
                        if isPointer f then
                          Some {| op := k; path := p; value := None;
                                  from := Some f |}
                        else None
                    | _ => None
                    end
                | OpRemove =>
                    Some {| op := k; path := p; value := None; from := None |}
                end
              else None
          | None => None
          end
      | _, _ => None
      end
  | _ => None
  end.

Fixpoint readOperations (js : list json) : option (list operation) :=
  match js with
  | [] => Some []
  | j :: js' =>
      match readOperation j, readOperations js' with
      | Some o, Some os => Some (o :: os)
      | _, _ => None
      end
  end.

(** A JSON Patch document is a JSON array of operation objects. *)
Definition readPatch (s : string) : option (list operation) :=
  match parse s with
  | Some (JArray js) => readOperations js
  | _ => None
  end.

Definition validPatchDocument (s : string) : bool :=
  match readPatch s with
  | Some _ => true
  | None => false
  end.

Definition isAddOrReplace (o : operation) : bool :=
  match op o with
  | OpAdd | OpReplace => true
  | _ => false
  end.

Definition targetsLabels (o : operation) : bool :=
  String.eqb (path o) "/metadata/labels"
  || String.eqb (path o) "/metadata/labels/service".

(** What the interface promises of an emitted patch: a valid document of
    add and replace operations on the two label paths. *)
Definition labelPatchDocument (s : string) : bool :=
  match readPatch s with
  | Some ops => forallb (fun o => isAddOrReplace o && targetsLabels o) ops
  | None => false
  end.

End Json.


(* ===================================================================== *)
(** ** Vocabulary of the statements                                      *)
(* ===================================================================== *)

(** The projection of the submitted object: the two conversions addLabel
    makes before it looks at the object.  The second one may panic. *)
Definition projectObject (env : Env) (req : AdmissionRequest)
  : Outcome (Unstructured + error) :=
  match Convert_runtime_RawExtension_To_runtime_Object env (RequestObject req) with
  | inr err => Done (inr (ErrConvertObject err))
  | inl obj =>
      match ToUnstructured env obj with
      | Panic msg => Panic msg
      | Done (inr err) => Done (inr (ErrToUnstructured err))
      | Done (inl u) => Done (inl u)
      end
  end.

(** A call that reaches the namespace lookup: the client is there, the
    request is present, its object projects to a Pod. *)
Record PodRequest (env : Env) (ar : AdmissionReview) (w : World)
    (req : AdmissionRequest) (u : Unstructured) (cs : Clientset) : Prop := {
  pod_client : fst (GetKubeClient env w) = Done (Some cs, None);
  pod_request : Request ar = Some req;
  pod_project : projectObject env req = Done (inl u);
  pod_kind : GetKind u = "Pod"
}.

(** A label of the pod, if the labels map is there and has the key. *)
Definition lookupLabel (labels : option (gmap string string)) (k : string)
  : option string :=
  match labels with
  | Some m => m !! k
  | None => None
  end.

(** The candidate value in the words of the specification. *)
Definition specCandidate (labels : option (gmap string string))
  : option string :=
  match lookupLabel labels "appName", lookupLabel labels "car_id" with
  | Some a, Some c => Some (a +:+ "-" +:+ c)
  | Some a, None => Some a
  | None, Some c => Some c
  | None, None => None
  end.

(** The effective namespace in the words of the specification. *)
Definition specNamespace (req : AdmissionRequest) (u : Unstructured) : string :=
  if decide (Namespace req = "") then
    if decide (GetNamespace u = "") then "default" else GetNamespace u
  else Namespace req.

(** The labels after the patch has been applied. *)
Definition applyServicePatch (labels : option (gmap string string))
    (v : string) : option (gmap string string) :=
  Some (<[serviceLabelKey := v]> (default ∅ labels)).

(** The API calls a run added to the record. *)
Definition newCalls (before after : World) : list ApiCall :=
  drop (length (calls before)) (calls after).

(** The operations the three patch documents stand for. *)
Definition addLabelsMapOp : Json.operation :=
  {| Json.op := Json.OpAdd; Json.path := "/metadata/labels";
     Json.value := Some (Json.JObject []); Json.from := None |}.

Definition addServiceOp (v : string) : Json.operation :=
  {| Json.op := Json.OpAdd; Json.path := serviceLabelPath;
     Json.value := Some (Json.JString v); Json.from := None |}.

Definition replaceServiceOp (v : string) : Json.operation :=
  {| Json.op := Json.OpReplace; Json.path := serviceLabelPath;
     Json.value := Some (Json.JString v); Json.from := None |}.

(** The ways through addLabel, as a relation between the call and what it
    leaves: the outcome and the world.  [addLabel_run] shows that every call
    is one of them. *)
Inductive AddLabelRun (env : Env) (ar : AdmissionReview) (w : World)
  : Outcome (option AdmissionResponse * option error) * World -> Prop :=
| RunClientError c e :
    fst (GetKubeClient env w) = Done (c, Some e) ->
    AddLabelRun env ar w
      (Done (None, Some (ErrGetClient e)), snd (GetKubeClient env w))
| RunNilRequest c msg :
    fst (GetKubeClient env w) = Done (c, None) ->
    Request ar = None ->
    AddLabelRun env ar w (Panic msg, snd (GetKubeClient env w))
| RunProjectionPanic c req msg :
    fst (GetKubeClient env w) = Done (c, None) ->
    Request ar = Some req ->
    projectObject env req = Panic msg ->
    AddLabelRun env ar w (Panic msg, snd (GetKubeClient env w))
| RunProjectionError c req e :
    fst (GetKubeClient env w) = Done (c, None) ->
    Request ar = Some req ->
    projectObject env req = Done (inr e) ->
    AddLabelRun env ar w (Done (None, Some e), snd (GetKubeClient env w))
| RunNotPod c req u :
    fst (GetKubeClient env w) = Done (c, None) ->
    Request ar = Some req ->
    projectObject env req = Done (inl u) ->
    GetKind u <> "Pod" ->
    AddLabelRun env ar w
      (Done (Some (allowResponse (UID req)), None), snd (GetKubeClient env w))
| RunNilClient req u msg :
    fst (GetKubeClient env w) = Done (None, None) ->
    Request ar = Some req ->
    projectObject env req = Done (inl u) ->
    GetKind u = "Pod" ->
    AddLabelRun env ar w (Panic msg, snd (GetKubeClient env w))
| RunLookupError req u cs e :
    PodRequest env ar w req u cs ->
    NamespacesGet cs (effectiveNamespace req u) = inr e ->
    AddLabelRun env ar w
      (Done (None, Some (ErrFetchNamespace (effectiveNamespace req u) e)),
       logCall (nsLookup (effectiveNamespace req u))
         (snd (GetKubeClient env w)))
| RunLookupOk req u cs ns :
    PodRequest env ar w req u cs ->
    NamespacesGet cs (effectiveNamespace req u) = inl ns ->
    AddLabelRun env ar w
      (Done (Some (labelDecision (UID req) (GetLabels u)), None),
       logCall (nsLookup (effectiveNamespace req u))
         (snd (GetKubeClient env w))).

(* ===================================================================== *)
(** ** Concrete requests                                                 *)
(* ===================================================================== *)

Module Demo.

Definition podGVK : GroupVersionKind :=
  {| Group := ""; Version := "v1"; Kind := "Pod" |}.

Definition reviewGVK : GroupVersionKind :=
  {| Group := "admission.k8s.io"; Version := "v1"; Kind := "AdmissionReview" |}.

(** A cluster where every namespace exists, and one where none does. *)
Definition okClient : Clientset :=
  {| NamespacesGet := fun n => inl {| NsName := n; NsLabels := None |} |}.

Definition emptyClient : Clientset :=
  {| NamespacesGet := fun n => inr (NotFound n) |}.

(** An environment that yields the given client and reads every object as
    the given projection; request bodies decode to the given review. *)
Definition envOf (client : Clientset + string) (u : Unstructured + string)
    (decoded : AdmissionReview + string) : Env :=
  {| Getenv := fun _ => "";
     filepath_Join := String.concat "/";
     InClusterConfig := inl {| Host := "https://10.96.0.1:443" |};
     BuildConfigFromFlags := fun _ _ => inr "no kubeconfig";
     NewForConfig := fun _ => client;
     Convert_runtime_RawExtension_To_runtime_Object := fun raw => inl raw;
     ToUnstructured := fun _ => Done u;
     json_Decode := fun _ => decoded |}.

Definition request (ns : string) : AdmissionRequest :=
  {| UID := "705ab4f5-6393-11e8-b7cc-42010a800002"; RequestKind := podGVK;
     Namespace := ns; RequestObject := "{}" |}.

Definition review (ns : string) : AdmissionReview :=
  {| TypeMeta := reviewGVK; Request := Some (request ns); Response := None |}.

Definition object (kind : string) (labels : option (gmap string string))
  : Unstructured :=
  {| GetKind := kind; GetName := "nginx-nvcwq"; GetNamespace := "";
     GetLabels := labels |}.

Definition freshWorld : World :=
  {| clientset := None; initOnce := false; calls := [] |}.

(** The labels of nginx-test-pod.yaml. *)
Definition nginxLabels : gmap string string :=
  <["appName" := "nginx"]> (<["car_id" := "01234"]> ∅).

(** The same pod once the patch has been applied. *)
Definition nginxLabelled : gmap string string :=
  <["service" := "nginx-01234"]> nginxLabels.

Definition podEnv (labels : option (gmap string string)) : Env :=
  envOf (inl okClient) (inl (object "Pod" labels)) (inl (review "default")).

(** A label value with a double quote in it. *)
Definition quoteLabels : gmap string string :=
  <["appName" := "a" +:+ DQ +:+ "b"]> ∅.

(** A label value that closes the string and the object and opens a second
    operation. *)
Definition injectedValue : string :=
  "x" +:+ DQ +:+ " }, { " +:+ DQ +:+ "op" +:+ DQ +:+ ": " +:+ DQ +:+ "remove"
    +:+ DQ +:+ ", " +:+ DQ +:+ "path" +:+ DQ +:+ ": " +:+ DQ
    +:+ "/spec/securityContext".

Definition injectedLabels : gmap string string :=
  <["appName" := injectedValue]> ∅.

Definition jsonRequest (contentType : list string) : HttpRequest :=
  {| Header := <["Content-Type" := contentType]> ∅;
     Body := "{}"; RequestURI := "/add-label" |}.

End Demo.


(* ===================================================================== *)
(** ** The listen address                                                *)
(* ===================================================================== *)

(** getPort: the PORT variable behind a colon, ":8080" when it is unset or
    empty. *)
Definition getPort (env : Env) : string :=
  let port := Getenv env "PORT" in
  if negb (String.eqb port "") then ":" +:+ port else ":8080".

(* ===================================================================== *)
(** ** Applying a patch to the labels of an object (RFC 6902)            *)
(* ===================================================================== *)

(** The reference for what a patch does to the labels: the add and replace
    operations of RFC 6902 at /metadata/labels and at its members.  An add
    at a member needs the labels object to be there and sets the member; a
    replace needs the member to be there; an add at /metadata/labels sets
    the labels object.  [None] is the error of an operation that cannot be
    applied. *)
Module PatchApply.

Fixpoint stripPrefix (pre s : string) : option string :=
  match pre with
  | "" => Some s
  | String a pre' =>
      match s with
      | String b s' => if Ascii.eqb a b then stripPrefix pre' s' else None
      | "" => None
      end
  end.

(** A reference token that needs no unescaping: no slash and no tilde. *)
Fixpoint plainToken (k : string) : bool :=
  match k with
  | "" => true
  | String c k' =>
      negb (Ascii.eqb c "/") && negb (Ascii.eqb c "~") && plainToken k'
  end.

Definition labelKeyOfPath (p : string) : option string :=
  match stripPrefix "/metadata/labels/" p with
  | Some k => if plainToken k then Some k else None
  | None => None
  end.

Definition applyOperation (o : Json.operation)
    (labels : option (gmap string string))
  : option (option (gmap string string)) :=
  if String.eqb (Json.path o) "/metadata/labels" then
    match Json.op o, Json.value o with
    | Json.OpAdd, Some (Json.JObject []) => Some (Some ∅)
    | _, _ => None
    end
  else
    match labelKeyOfPath (Json.path o), Json.value o, labels with
    | Some k, Some (Json.JString v), Some m =>
        match Json.op o with
        | Json.OpAdd => Some (Some (<[k := v]> m))
        | Json.OpReplace =>
            match m !! k with
            | Some _ => Some (Some (<[k := v]> m))
            | None => None
            end
        | _ => None
        end
    | _, _, _ => None
    end.

Fixpoint applyOperations (ops : list Json.operation)
    (labels : option (gmap string string))
  : option (option (gmap string string)) :=
  match ops with
  | [] => Some labels
  | o :: ops' =>
      match applyOperation o labels with
      | Some labels' => applyOperations ops' labels'
      | None => None
      end
  end.

(** Reading the bytes of a patch and applying it. *)
Definition applyPatch (patch : string) (labels : option (gmap string string))
  : option (option (gmap string string)) :=
  match Json.readPatch patch with
  | Some ops => applyOperations ops labels
  | None => None
  end.

End PatchApply.

(* ===================================================================== *)
(** ** The first version of addLabel (original.go)                       *)
(* ===================================================================== *)

(** The version the program started from: it copies the team label of the
    namespace onto the object.  It has no kind check and no namespace
    fallback, and never replaces a team label that is there. *)
Module Original.

Definition addMapAndTeamOpen : string :=
  "[" +:+ LF +:+
  "            {" +:+ LF +:+
  "                " +:+ DQ +:+ "op" +:+ DQ +:+ ": " +:+ DQ +:+ "add" +:+ DQ
    +:+ "," +:+ LF +:+
  "                " +:+ DQ +:+ "path" +:+ DQ +:+ ": " +:+ DQ
    +:+ "/metadata/labels" +:+ DQ +:+ "," +:+ LF +:+
  "                " +:+ DQ +:+ "value" +:+ DQ +:+ ": {}" +:+ LF +:+
  "            }," +:+ LF +:+
  "            {" +:+ LF +:+
  "                " +:+ DQ +:+ "op" +:+ DQ +:+ ": " +:+ DQ +:+ "add" +:+ DQ
    +:+ "," +:+ LF +:+
  "                " +:+ DQ +:+ "path" +:+ DQ +:+ ": " +:+ DQ
    +:+ "/metadata/labels/team" +:+ DQ +:+ "," +:+ LF +:+
  "                " +:+ DQ +:+ "value" +:+ DQ +:+ ": " +:+ DQ.

Definition addTeamOpen : string :=
  "[" +:+ LF +:+
  "            {" +:+ LF +:+
  "                " +:+ DQ +:+ "op" +:+ DQ +:+ ": " +:+ DQ +:+ "add" +:+ DQ
    +:+ "," +:+ LF +:+
  "                " +:+ DQ +:+ "path" +:+ DQ +:+ ": " +:+ DQ
    +:+ "/metadata/labels/team" +:+ DQ +:+ "," +:+ LF +:+
  "                " +:+ DQ +:+ "value" +:+ DQ +:+ ": " +:+ DQ.

Definition teamClose : string :=
  DQ +:+ LF +:+
  "            }" +:+ LF +:+
  "        ]".

Definition patchAddMapAndTeam (teamLabelValue : string) : string :=
  addMapAndTeamOpen +:+ teamLabelValue +:+ teamClose.

Definition patchAddTeam (teamLabelValue : string) : string :=
  addTeamOpen +:+ teamLabelValue +:+ teamClose.

(** The switch at the end: what is attached for the team value. *)
Definition teamDecision (uid : string) (podLabels : option (gmap string string))
    (teamLabelValue : string) : AdmissionResponse :=
  let reviewResponse := allowResponse uid in
  if isNil podLabels then
    withPatch reviewResponse (patchAddMapAndTeam teamLabelValue)
  else if negb (hasLabel podLabels "team") then
    withPatch reviewResponse (patchAddTeam teamLabelValue)
  else reviewResponse.

Definition addLabel (env : Env) (ar : AdmissionReview)
  : M (option AdmissionResponse * option error) :=
  got <- GetKubeClient env ;;
  let '(c, err) := got in
  match err with
  | Some err => ret (None, Some (ErrGetClient err))
  | None =>
    req <- deref (Request ar) ;;
    match Convert_runtime_RawExtension_To_runtime_Object env (RequestObject req) with
    | inr err => ret (None, Some (ErrConvertObject err))
    | inl obj =>
      match ToUnstructured env obj with
      | Panic msg => panic msg
      | Done (inr err) => ret (None, Some (ErrToUnstructured err))
      | Done (inl u) =>
        let namespaceName := Namespace req in
        r <- CoreV1_Namespaces_Get c namespaceName ;;
        match r with
        | inr err => ret (None, Some (ErrFetchNamespace namespaceName err))
        | inl namespace =>
            let '(teamLabelValue, exists_) :=
              mapIndex (NsLabels namespace) "team" in
            if negb exists_ then ret (Some (allowResponse (UID req)), None)
            else
              ret (Some (teamDecision (UID req) (GetLabels u) teamLabelValue),
                   None)
        end
      end
    end
  end.

(** A cluster whose namespaces all carry team = platform. *)
Definition teamClient : Clientset :=
  {| NamespacesGet := fun n =>
       inl {| NsName := n; NsLabels := Some (<["team" := "platform"]> ∅) |} |}.

End Original.

(* ===================================================================== *)
(** ** Raw objects                                                       *)
(* ===================================================================== *)

(** The bytes of a submitted object, read the way addLabel's conversions and
    the accessors of [unstructured.Unstructured] read them: empty and null
    bytes give the nil object, on which ToUnstructured panics, as it does on
    JSON that is not an object; GetLabels is nil when /metadata/labels is
    missing, is not an object, or holds a value that is not a string.  Used
    for the concrete requests whose object is given by its bytes. *)
Module Payload.








End Payload.

(* ===================================================================== *)
(** ** More concrete requests                                            *)
(* ===================================================================== *)

Module Demo2.







(** Both source labels, the first one closing the string and the object and
    opening a second operation. *)
Definition injectedBothLabels : gmap string string :=
  <["appName" := Demo.injectedValue]> (<["car_id" := "c"]> ∅).

(** An environment where no client can be built. *)
Definition noClusterEnv (u : Unstructured) : Env :=
  Demo.envOf (inr "no cluster") (inl u) (inl (Demo.review "default")).

(** The world after the initializer has run and succeeded. *)
Definition readyWorld : World :=
  {| clientset := Some Demo.okClient; initOnce := true; calls := [] |}.

Definition withPort (port : string) : Env :=
  {| Getenv := fun k =>
       if String.eqb k "PORT" then port
       else if String.eqb k "HOME" then "/root" else "";
     filepath_Join := fun elems =>
       String.concat "/" (filter (fun s => negb (String.eqb s "")) elems);
     InClusterConfig := inr "not in a cluster";
     BuildConfigFromFlags := fun _ _ => inr "no kubeconfig";
     NewForConfig := fun _ => inr "no cluster";
     Convert_runtime_RawExtension_To_runtime_Object := fun raw => inl raw;
     ToUnstructured := fun _ => Done (inr "no object");
     json_Decode := fun _ => inr "no review" |}.

Definition appOnlyLabels : gmap string string :=
  <["appName" := "nginx"]> (<["service" := "old"]> ∅).

Definition dashedLabels : gmap string string :=
  <["appName" := "nginx-01234"]> ∅.

Definition teamEnv (labels : option (gmap string string)) : Env :=
  Demo.envOf (inl Original.teamClient) (inl (Demo.object "Pod" labels))
    (inl (Demo.review "default")).

End Demo2.

(* ===================================================================== *)
(** ** The runs of addLabel                                              *)
(* ===================================================================== *)

Section Runs.

Variable env : Env.

(** GetKubeClient always returns, and issues no API call. *)
Lemma GetKubeClient_returns (w : World) :
  exists c err, fst (GetKubeClient env w) = Done (c, err).
Proof.
  unfold GetKubeClient. destruct (initOnce w).
  - eauto.
  - destruct initializeClient as [c err]. eauto.
Qed.

Lemma GetKubeClient_calls (w : World) :
  calls (snd (GetKubeClient env w)) = calls w.
Proof.
  unfold GetKubeClient. destruct (initOnce w); [reflexivity|].
  destruct initializeClient; reflexivity.
Qed.

(** Once the initializer has run, the stored client is handed out with a
    nil error and the world stays as it is. *)
Lemma GetKubeClient_initialised (w : World) :
  initOnce w = true -> GetKubeClient env w = (Done (clientset w, None), w).
Proof. intros H. unfold GetKubeClient. rewrite H. reflexivity. Qed.

Lemma kind_eqb_Pod (u : Unstructured) :
  negb (String.eqb (GetKind u) "Pod") = false <-> GetKind u = "Pod".
Proof.
  rewrite negb_false_iff. apply String.eqb_eq.
Qed.

Lemma kind_neqb_Pod (u : Unstructured) :
  negb (String.eqb (GetKind u) "Pod") = true <-> GetKind u <> "Pod".
Proof.
  rewrite negb_true_iff. apply String.eqb_neq.
Qed.

(** The namespace looked up is never the empty name. *)
Lemma effectiveNamespace_nonempty (req : AdmissionRequest) (u : Unstructured) :
  effectiveNamespace req u <> "".
Proof.
  unfold effectiveNamespace.
  destruct (String.eqb (Namespace req) "") eqn:E1.
  - destruct (String.eqb (GetNamespace u) "") eqn:E2.
    + discriminate.
    + apply String.eqb_neq. exact E2.
  - rewrite E1. apply String.eqb_neq. exact E1.
Qed.

(** For a name that is not empty the client passes the request on. *)
Lemma Namespaces_Get_nonempty (cs : Clientset) (name : string) :
  name <> "" -> Namespaces_Get cs name = NamespacesGet cs name.
Proof.
  intros H. unfold Namespaces_Get. apply String.eqb_neq in H. rewrite H.
  reflexivity.
Qed.

(** The projection, read off the two conversions. *)
Ltac project_in Hp :=
  unfold projectObject in Hp;
  destruct (Convert_runtime_RawExtension_To_runtime_Object env _)
    as [obj|cerr];
  [destruct (ToUnstructured env obj) as [[u'|uerr]|pmsg]|];
  try discriminate Hp.

(** The equations of addLabel, one per way through the function. *)
Lemma addLabel_client_error (ar : AdmissionReview) (w : World) c e :
  fst (GetKubeClient env w) = Done (c, Some e) ->
  addLabel env ar w
  = (Done (None, Some (ErrGetClient e)), snd (GetKubeClient env w)).
Proof.
  intros Hc. unfold addLabel, bind.
  destruct (GetKubeClient env w) as [o w1]. simpl in *. subst o. reflexivity.
Qed.

Lemma addLabel_nil_request (ar : AdmissionReview) (w : World) c :
  fst (GetKubeClient env w) = Done (c, None) ->
  Request ar = None ->
  exists msg, addLabel env ar w = (Panic msg, snd (GetKubeClient env w)).
Proof.
  intros Hc Hr. unfold addLabel, bind.
  destruct (GetKubeClient env w) as [o w1]. simpl in *. subst o.
  rewrite Hr. simpl. eauto.
Qed.

Lemma addLabel_projection_panic (ar : AdmissionReview) (w : World) c req msg :
  fst (GetKubeClient env w) = Done (c, None) ->
  Request ar = Some req ->
  projectObject env req = Panic msg ->
  addLabel env ar w = (Panic msg, snd (GetKubeClient env w)).
Proof.
  intros Hc Hr Hp. unfold addLabel, bind.
  destruct (GetKubeClient env w) as [o w1]. simpl in *. subst o.
  rewrite Hr. simpl. project_in Hp.
  injection Hp as <-. reflexivity.
Qed.

Lemma addLabel_projection_error (ar : AdmissionReview) (w : World) c req e :
  fst (GetKubeClient env w) = Done (c, None) ->
  Request ar = Some req ->
  projectObject env req = Done (inr e) ->
  addLabel env ar w = (Done (None, Some e), snd (GetKubeClient env w)).
Proof.
  intros Hc Hr Hp. unfold addLabel, bind.
  destruct (GetKubeClient env w) as [o w1]. simpl in *. subst o.
  rewrite Hr. simpl. project_in Hp.
  - injection Hp as <-. reflexivity.
  - injection Hp as <-. reflexivity.
Qed.

Lemma addLabel_not_pod (ar : AdmissionReview) (w : World) c req u :
  fst (GetKubeClient env w) = Done (c, None) ->
  Request ar = Some req ->
  projectObject env req = Done (inl u) ->
  GetKind u <> "Pod" ->
  addLabel env ar w
  = (Done (Some (allowResponse (UID req)), None), snd (GetKubeClient env w)).
Proof.
  intros Hc Hr Hp Hk. unfold addLabel, bind.
  destruct (GetKubeClient env w) as [o w1]. simpl in *. subst o.
  rewrite Hr. simpl. project_in Hp.
  injection Hp as ->. apply kind_neqb_Pod in Hk. rewrite Hk. reflexivity.
Qed.

Lemma addLabel_nil_client (ar : AdmissionReview) (w : World) req u :
  fst (GetKubeClient env w) = Done (None, None) ->
  Request ar = Some req ->
  projectObject env req = Done (inl u) ->
  GetKind u = "Pod" ->
  exists msg, addLabel env ar w = (Panic msg, snd (GetKubeClient env w)).
Proof.
  intros Hc Hr Hp Hk. unfold addLabel, bind.
  destruct (GetKubeClient env w) as [o w1]. simpl in *. subst o.
  rewrite Hr. simpl. project_in Hp.
  injection Hp as ->. apply kind_eqb_Pod in Hk. rewrite Hk.
  simpl. eauto.
Qed.

Lemma addLabel_pod (ar : AdmissionReview) (w : World) req u cs :
  PodRequest env ar w req u cs ->
  addLabel env ar w
  = (Done match NamespacesGet cs (effectiveNamespace req u) with
          | inl _ => (Some (labelDecision (UID req) (GetLabels u)), None)
          | inr e =>
              (None, Some (ErrFetchNamespace (effectiveNamespace req u) e))
          end,
     logCall (nsLookup (effectiveNamespace req u)) (snd (GetKubeClient env w))).
Proof.
  intros [Hc Hr Hp Hk]. unfold addLabel, bind.
  destruct (GetKubeClient env w) as [o w1]. simpl in *. subst o.
  rewrite Hr. simpl. project_in Hp.
  injection Hp as ->. apply kind_eqb_Pod in Hk. rewrite Hk.
  simpl.
  rewrite (Namespaces_Get_nonempty cs _ (effectiveNamespace_nonempty req u)).
  pose proof (effectiveNamespace_nonempty req u) as Hne.
  apply String.eqb_neq in Hne. rewrite Hne.
  destruct (NamespacesGet cs _); reflexivity.
Qed.

(** Every call of addLabel is one of the runs. *)
Lemma addLabel_run (ar : AdmissionReview) (w : World) :
  AddLabelRun env ar w (addLabel env ar w).
Proof.
  destruct (GetKubeClient_returns w) as (c & err & Hc).
  destruct err as [e|].
  { rewrite (addLabel_client_error ar w c e Hc). econstructor; eassumption. }
  destruct (Request ar) as [req|] eqn:Hr.
  2:{ destruct (addLabel_nil_request ar w c Hc Hr) as [msg ->].
      eapply RunNilRequest; eassumption. }
  destruct (projectObject env req) as [[u|e]|msg] eqn:Hp.
  3:{ rewrite (addLabel_projection_panic ar w c req msg Hc Hr Hp).
      eapply RunProjectionPanic; eassumption. }
  2:{ rewrite (addLabel_projection_error ar w c req e Hc Hr Hp).
      eapply RunProjectionError; eassumption. }
  destruct (decide (GetKind u = "Pod")) as [Hk|Hk].
  2:{ rewrite (addLabel_not_pod ar w c req u Hc Hr Hp Hk).
      eapply RunNotPod; eassumption. }
  destruct c as [cs|].
  2:{ destruct (addLabel_nil_client ar w req u Hc Hr Hp Hk) as [msg ->].
      eapply RunNilClient; eassumption. }
  assert (Hpod : PodRequest env ar w req u cs) by (constructor; assumption).
  rewrite (addLabel_pod ar w req u cs Hpod).
  destruct (NamespacesGet cs (effectiveNamespace req u)) as [ns|e] eqn:Hn.
  - eapply RunLookupOk; eassumption.
  - eapply RunLookupError; eassumption.
Qed.

End Runs.

(* ===================================================================== *)
(** ** The label logic                                                   *)
(* ===================================================================== *)

Lemma mapIndex_lookupLabel (labels : option (gmap string string)) (k : string) :
  mapIndex labels k
  = match lookupLabel labels k with
    | Some v => (v, true)
    | None => ("", false)
    end.
Proof. destruct labels as [m|]; reflexivity. Qed.

(** The first switch computes the candidate of the specification. *)
Lemma deriveServiceVal_spec (labels : option (gmap string string)) :
  deriveServiceVal labels = specCandidate labels.
Proof.
  unfold deriveServiceVal, specCandidate.
  rewrite !mapIndex_lookupLabel.
  destruct (lookupLabel labels "car_id"), (lookupLabel labels "appName");
    reflexivity.
Qed.

Lemma specCandidate_nil : specCandidate None = None.
Proof. reflexivity. Qed.

Lemma specCandidate_None (labels : option (gmap string string)) :
  specCandidate labels = None
  <-> lookupLabel labels "appName" = None /\ lookupLabel labels "car_id" = None.
Proof.
  unfold specCandidate.
  destruct (lookupLabel labels "appName"), (lookupLabel labels "car_id");
    split; try discriminate; try tauto; intros [? ?]; discriminate.
Qed.

(** The namespace fallback of addLabel is the one of the specification. *)
Lemma effectiveNamespace_spec (req : AdmissionRequest) (u : Unstructured) :
  effectiveNamespace req u = specNamespace req u.
Proof.
  unfold effectiveNamespace, specNamespace.
  destruct (decide (Namespace req = "")) as [E|E].
  - rewrite E. simpl.
    destruct (decide (GetNamespace u = "")) as [E'|E'].
    + rewrite E'. reflexivity.
    + apply String.eqb_neq in E'. rewrite E'. reflexivity.
  - apply String.eqb_neq in E. rewrite E, E. reflexivity.
Qed.

(** The four results of the label logic. *)
Lemma labelDecision_underivable uid (labels : option (gmap string string)) :
  specCandidate labels = None ->
  labelDecision uid labels = allowResponse uid.
Proof.
  intros H. unfold labelDecision. rewrite deriveServiceVal_spec, H. reflexivity.
Qed.

Lemma labelDecision_same uid (labels : option (gmap string string)) cand :
  specCandidate labels = Some cand ->
  lookupLabel labels serviceLabelKey = Some cand ->
  labelDecision uid labels = allowResponse uid.
Proof.
  intros H Hs. unfold labelDecision.
  rewrite deriveServiceVal_spec, H, mapIndex_lookupLabel, Hs.
  simpl. rewrite String.eqb_refl. reflexivity.
Qed.

Lemma labelDecision_add uid (labels : option (gmap string string)) cand :
  specCandidate labels = Some cand ->
  lookupLabel labels serviceLabelKey = None ->
  labelDecision uid labels
  = withPatch (allowResponse uid) (patchAddKey cand).
Proof.
  intros H Hs. unfold labelDecision.
  rewrite deriveServiceVal_spec, H, mapIndex_lookupLabel, Hs. simpl.
  unfold buildPatch, hasLabel. rewrite mapIndex_lookupLabel, Hs.
  destruct labels as [m|]; [reflexivity|discriminate].
Qed.

Lemma labelDecision_replace uid (labels : option (gmap string string))
    cand old :
  specCandidate labels = Some cand ->
  lookupLabel labels serviceLabelKey = Some old ->
  old <> cand ->
  labelDecision uid labels
  = withPatch (allowResponse uid) (patchReplaceKey cand).
Proof.
  intros H Hs Hne. unfold labelDecision.
  rewrite deriveServiceVal_spec, H, mapIndex_lookupLabel, Hs. simpl.
  apply String.eqb_neq in Hne. rewrite Hne.
  unfold buildPatch, hasLabel. rewrite mapIndex_lookupLabel, Hs.
  destruct labels as [m|]; [reflexivity|discriminate].
Qed.

(** A nil labels map never gets past the first switch. *)
Lemma labelDecision_nil uid : labelDecision uid None = allowResponse uid.
Proof. reflexivity. Qed.

(** The labels after the patch give the same candidate, and carry it. *)
Lemma specCandidate_applyServicePatch (labels : option (gmap string string)) v :
  specCandidate (applyServicePatch labels v) = specCandidate labels.
Proof.
  unfold specCandidate, applyServicePatch, lookupLabel, serviceLabelKey.
  rewrite !lookup_insert_ne by discriminate.
  destruct labels as [m|]; simpl; [reflexivity|].
  rewrite !lookup_empty. reflexivity.
Qed.

Lemma labelDecision_idempotent uid (labels : option (gmap string string)) cand :
  specCandidate labels = Some cand ->
  labelDecision uid (applyServicePatch labels cand) = allowResponse uid.
Proof.
  intros H. apply labelDecision_same with cand.
  - rewrite specCandidate_applyServicePatch. exact H.
  - unfold applyServicePatch, lookupLabel. apply lookup_insert_eq.
Qed.

(* ===================================================================== *)
(** ** The patch documents as JSON                                       *)
(* ===================================================================== *)

Section PatchDocuments.

Import Json.

Lemma append_nil_l (s : string) : "" +:+ s = s.
Proof. reflexivity. Qed.

Lemma append_cons (c : ascii) (s1 s2 : string) :
  String c s1 +:+ s2 = String c (s1 +:+ s2).
Proof. reflexivity. Qed.

Lemma lexRun_append (s1 s2 : string) : forall st,
  lexRun st (s1 +:+ s2)
  = match lexRun st s1 with
    | Some (st', toks) =>
        match lexRun st' s2 with
        | Some (st'', toks') => Some (st'', (toks ++ toks')%list)
        | None => None
        end
    | None => None
    end.
Proof.
  induction s1 as [|c s1 IH]; intros st.
  - rewrite append_nil_l. simpl.
    destruct (lexRun st s2) as [[st' toks]|]; reflexivity.
  - rewrite append_cons. simpl.
    destruct (step st c) as [[st1 toks1]|]; [|reflexivity].
    rewrite IH.
    destruct (lexRun st1 s1) as [[st2 toks2]|]; [|reflexivity].
    destruct (lexRun st2 s2) as [[st3 toks3]|]; [|reflexivity].
    rewrite app_assoc. reflexivity.
Qed.

Lemma append_snoc (acc : string) (c : ascii) (s : string) :
  snoc acc c +:+ s = acc +:+ String c s.
Proof.
  unfold snoc. induction acc as [|a acc IH]; [reflexivity|].
  rewrite !append_cons, IH. reflexivity.
Qed.

Lemma append_empty_r (s : string) : s +:+ "" = s.
Proof.
  induction s as [|c s IH]; [reflexivity|]. rewrite append_cons, IH. reflexivity.
Qed.

(** Inside a string, plain characters are taken as they are. *)
Lemma lexRun_plain (v : string) : forall acc,
  plainString v = true ->
  lexRun (LStr acc) v = Some (LStr (acc +:+ v), []).
Proof.
  induction v as [|c v IH]; intros acc Hv; simpl.
  - rewrite append_empty_r. reflexivity.
  - simpl in Hv. apply andb_true_iff in Hv as [Hc Hv].
    assert (Hq : Ascii.eqb c "034" = false).
    { unfold plainChar in Hc. destruct (Ascii.eqb c "034"); [discriminate|reflexivity]. }
    assert (Hb : Ascii.eqb c "092" = false).
    { unfold plainChar in Hc. rewrite Hq in Hc.
      destruct (Ascii.eqb c "092"); [discriminate|reflexivity]. }
    rewrite Hq, Hb, Hc. rewrite (IH _ Hv), append_snoc. reflexivity.
Qed.

(** Reading [pre +:+ v +:+ post], where [pre] ends in an opening quote and
    [v] is plain. *)
Lemma lexRun_value (pre v post : string) toks toks' st :
  lexRun LStart pre = Some (LStr "", toks) ->
  plainString v = true ->
  lexRun (LStr v) post = Some (st, toks') ->
  lexRun LStart (pre +:+ v +:+ post) = Some (st, (toks ++ toks')%list).
Proof.
  intros Hpre Hv Hpost.
  rewrite lexRun_append, Hpre, lexRun_append, (lexRun_plain v "" Hv).
  rewrite append_nil_l, Hpost. reflexivity.
Qed.

(** A patch document is its opening, up to the quote before the value,
    then the value, then the closing. *)
Lemma readPatch_document (pre v : string) toks ops :
  lexRun LStart pre = Some (LStr "", toks) ->
  plainString v = true ->
  match prun (PValue [])
          (toks ++ [TString v; TRBrace; TRBracket])%list with
  | Some (JArray js) => readOperations js
  | _ => None
  end = Some ops ->
  readPatch (pre +:+ v +:+ patchClose) = Some ops.
Proof.
  intros Hpre Hv Hops. unfold readPatch, parse, lex.
  rewrite (lexRun_value pre v patchClose toks
             [TString v; TRBrace; TRBracket] LStart Hpre Hv)
    by reflexivity.
  simpl lexEnd. cbv iota. rewrite app_nil_r. exact Hops.
Qed.

Lemma patchAddKey_split (v : string) :
  patchAddKey v
  = (addKeyOpen +:+ serviceLabelPath +:+ valueOpen) +:+ v +:+ patchClose.
Proof. reflexivity. Qed.

Lemma patchReplaceKey_split (v : string) :
  patchReplaceKey v
  = (replaceKeyOpen +:+ serviceLabelPath +:+ valueOpen) +:+ v +:+ patchClose.
Proof. reflexivity. Qed.


Lemma readPatch_patchAddKey (v : string) :
  plainString v = true ->
  readPatch (patchAddKey v) = Some [addServiceOp v].
Proof.
  intros Hv. rewrite patchAddKey_split.
  eapply readPatch_document; [vm_compute; reflexivity | exact Hv | reflexivity].
Qed.

Lemma readPatch_patchReplaceKey (v : string) :
  plainString v = true ->
  readPatch (patchReplaceKey v) = Some [replaceServiceOp v].
Proof.
  intros Hv. rewrite patchReplaceKey_split.
  eapply readPatch_document; [vm_compute; reflexivity | exact Hv | reflexivity].
Qed.


End PatchDocuments.

(* ===================================================================== *)
(** ** What the label logic decides                                      *)
(* ===================================================================== *)

(** The decision in full, by the candidate and the service label. *)
Lemma labelDecision_cases uid (labels : option (gmap string string)) :
  labelDecision uid labels
  = match specCandidate labels with
    | None => allowResponse uid
    | Some cand =>
        match lookupLabel labels serviceLabelKey with
        | None => withPatch (allowResponse uid) (patchAddKey cand)
        | Some old =>
            if decide (old = cand) then allowResponse uid
            else withPatch (allowResponse uid) (patchReplaceKey cand)
        end
    end.
Proof.
  destruct (specCandidate labels) as [cand|] eqn:Hc.
  - destruct (lookupLabel labels serviceLabelKey) as [old|] eqn:Hs.
    + destruct (decide (old = cand)) as [->|Hne].
      * eapply labelDecision_same; eassumption.
      * eapply labelDecision_replace; eassumption.
    + apply labelDecision_add; assumption.
  - apply labelDecision_underivable; assumption.
Qed.

Lemma labelDecision_allowed uid (labels : option (gmap string string)) :
  Allowed (labelDecision uid labels) = true
  /\ RespUID (labelDecision uid labels) = uid.
Proof.
  rewrite labelDecision_cases.
  destruct (specCandidate labels); [|split; reflexivity].
  destruct (lookupLabel labels serviceLabelKey); [|split; reflexivity].
  destruct (decide _); split; reflexivity.
Qed.

Lemma labelDecision_patch_iff uid (labels : option (gmap string string)) :
  is_Some (Patch (labelDecision uid labels))
  <-> exists cand, specCandidate labels = Some cand
                   /\ lookupLabel labels serviceLabelKey <> Some cand.
Proof.
  rewrite labelDecision_cases.
  destruct (specCandidate labels) as [cand|].
  - destruct (lookupLabel labels serviceLabelKey) as [old|].
    + destruct (decide (old = cand)) as [->|Hne]; simpl.
      * split; [intros [? ?]; discriminate|].
        intros (c & [= <-] & Hc). congruence.
      * split; [|eauto]. intros _. exists cand. split; [reflexivity|congruence].
    + simpl. split; [|eauto]. intros _. exists cand. split; [reflexivity|discriminate].
  - simpl. split; [intros [? ?]; discriminate|].
    intros (c & Hc & _). discriminate.
Qed.

(** Whatever patch is attached is one of the two single-operation
    documents, for the candidate, and the labels map is there. *)
Lemma labelDecision_patch_inv uid (labels : option (gmap string string)) p :
  Patch (labelDecision uid labels) = Some p ->
  exists m cand,
    labels = Some m
    /\ deriveServiceVal labels = Some cand
    /\ ((m !! serviceLabelKey = None /\ p = patchAddKey cand)
        \/ (exists old, m !! serviceLabelKey = Some old /\ old <> cand
                        /\ p = patchReplaceKey cand)).
Proof.
  rewrite labelDecision_cases, deriveServiceVal_spec.
  destruct labels as [m|]; [|discriminate].
  destruct (specCandidate (Some m)) as [cand|]; [|discriminate].
  simpl lookupLabel.
  destruct (m !! serviceLabelKey) as [old|] eqn:Hs.
  - destruct (decide (old = cand)) as [->|Hne]; [discriminate|].
    intros [= <-]. exists m, cand. split; [reflexivity|]. split; [reflexivity|].
    right. eauto.
  - intros [= <-]. exists m, cand. split; [reflexivity|]. split; [reflexivity|].
    left. eauto.
Qed.

(** The two-operation document differs from the single-operation ones
    whatever the values: after [/metadata/labels] it closes the string where
    they go on with [/service]. *)
Lemma patchAddKey_not_two_operations (v v' : string) :
  patchAddKey v <> patchAddMapAndKey v'.
Proof. intros H. vm_compute in H. discriminate H. Qed.

Lemma patchReplaceKey_not_two_operations (v v' : string) :
  patchReplaceKey v <> patchAddMapAndKey v'.
Proof. intros H. vm_compute in H. discriminate H. Qed.

(* ===================================================================== *)
(** ** The service label of a Pod with both source labels               *)
(* ===================================================================== *)

(** C1, as amended.  For every Pod request whose labels hold appName = A and
    car_id = C, where A-C is made of plain characters (no double quote, no
    backslash, no control character), and whose namespace lookup succeeds,
    addLabel returns an allowed decision with the request's uid.  When the
    service label already is A-C the decision carries no patch; otherwise
    its patch is exactly one operation at /metadata/labels/service with the
    value A-C: an add when the service key is absent, a replace when the key
    holds another value. *)
Theorem C1_service_patch (env : Env) (ar : AdmissionReview) (w : World)
    (req : AdmissionRequest) (u : Unstructured) (cs : Clientset)
    (ns : NamespaceObj) (m : gmap string string) (A C : string) :
  PodRequest env ar w req u cs ->
  NamespacesGet cs (effectiveNamespace req u) = inl ns ->
  GetLabels u = Some m ->
  m !! "appName" = Some A ->
  m !! "car_id" = Some C ->
  Json.plainString (A +:+ "-" +:+ C) = true ->
  exists resp,
    fst (addLabel env ar w) = Done (Some resp, None)
    /\ Allowed resp = true
    /\ RespUID resp = UID req
    /\ match m !! "service" with
       | None =>
           Patch resp = Some (patchAddKey (A +:+ "-" +:+ C))
           /\ Json.readPatch (patchAddKey (A +:+ "-" +:+ C))
              = Some [addServiceOp (A +:+ "-" +:+ C)]
       | Some old =>
           if decide (old = A +:+ "-" +:+ C) then Patch resp = None
           else
             Patch resp = Some (patchReplaceKey (A +:+ "-" +:+ C))
             /\ Json.readPatch (patchReplaceKey (A +:+ "-" +:+ C))
                = Some [replaceServiceOp (A +:+ "-" +:+ C)]
       end.
Proof.
  intros Hpod Hns Hl HA HC Hplain.
  exists (labelDecision (UID req) (GetLabels u)).
  split. { rewrite (addLabel_pod env ar w req u cs Hpod), Hns. reflexivity. }
  split. { apply labelDecision_allowed. }
  split. { apply labelDecision_allowed. }
  rewrite labelDecision_cases, Hl.
  unfold specCandidate, serviceLabelKey. simpl lookupLabel. rewrite HA, HC.
  destruct (m !! "service") as [old|].
  - destruct (decide (old = A +:+ "-" +:+ C)); [reflexivity|].
    split; [reflexivity|]. apply readPatch_patchReplaceKey, Hplain.
  - split; [reflexivity|]. apply readPatch_patchAddKey, Hplain.
Qed.

(** The pod of the walkthrough: labels appName = nginx and car_id = 01234,
    no service key. *)
Lemma C1_service_patch_witness :
  exists resp,
    fst (addLabel (Demo.podEnv (Some Demo.nginxLabels)) (Demo.review "")
           Demo.freshWorld) = Done (Some resp, None)
    /\ Allowed resp = true
    /\ RespUID resp = UID (Demo.request "")
    /\ (Patch resp = Some (patchAddKey "nginx-01234")
        /\ Json.readPatch (patchAddKey "nginx-01234")
           = Some [addServiceOp "nginx-01234"]).
Proof.
  apply (C1_service_patch (Demo.podEnv (Some Demo.nginxLabels))
           (Demo.review "") Demo.freshWorld (Demo.request "")
           (Demo.object "Pod" (Some Demo.nginxLabels)) Demo.okClient
           {| NsName := "default"; NsLabels := None |}
           Demo.nginxLabels "nginx" "01234").
  - constructor; reflexivity.
  - reflexivity.
  - reflexivity.
  - reflexivity.
  - reflexivity.
  - reflexivity.
Defined.

(** C1 as stated fails at two inputs.  Where the service label already
    holds A-C, the pod has both source labels, its namespace exists, and the
    decision carries no patch.  Where appName closes the string and the
    object and opens a second operation, the patch is returned but reads as
    two operations, an add of the value x and a remove, and not as one
    operation with the value A-C. *)
Lemma C1_counterexample :
  (let labels := Demo.nginxLabelled in
   let env := Demo.podEnv (Some labels) in
   let u := Demo.object "Pod" (Some labels) in
   PodRequest env (Demo.review "") Demo.freshWorld (Demo.request "") u
     Demo.okClient
   /\ NamespacesGet Demo.okClient (effectiveNamespace (Demo.request "") u)
      = inl {| NsName := "default"; NsLabels := None |}
   /\ labels !! "appName" = Some "nginx"
   /\ labels !! "car_id" = Some "01234"
   /\ fst (addLabel env (Demo.review "") Demo.freshWorld)
      = Done (Some (allowResponse (UID (Demo.request ""))), None)
   /\ ~ (exists resp p,
           fst (addLabel env (Demo.review "") Demo.freshWorld)
           = Done (Some resp, None)
           /\ Patch resp = Some p))
  /\ (let labels := Demo2.injectedBothLabels in
      let env := Demo.podEnv (Some labels) in
      let u := Demo.object "Pod" (Some labels) in
      let value := Demo.injectedValue +:+ "-" +:+ "c" in
      PodRequest env (Demo.review "") Demo.freshWorld (Demo.request "") u
        Demo.okClient
      /\ NamespacesGet Demo.okClient (effectiveNamespace (Demo.request "") u)
         = inl {| NsName := "default"; NsLabels := None |}
      /\ labels !! "appName" = Some Demo.injectedValue
      /\ labels !! "car_id" = Some "c"
      /\ fst (addLabel env (Demo.review "") Demo.freshWorld)
         = Done (Some (withPatch (allowResponse (UID (Demo.request "")))
                         (patchAddKey value)), None)
      /\ Json.readPatch (patchAddKey value)
         = Some [addServiceOp "x";
                 {| Json.op := Json.OpRemove;
                    Json.path := "/spec/securityContext-c";
                    Json.value := None; Json.from := None |}]
      /\ Json.readPatch (patchAddKey value) <> Some [addServiceOp value]).
Proof.
  split.
  - repeat split; try reflexivity.
    intros (resp & p & Hrun & Hp).
    vm_compute in Hrun. injection Hrun as <-. discriminate Hp.
  - repeat split; try reflexivity.
    vm_compute. discriminate.
Qed.

(* ===================================================================== *)
(** ** When a patch is attached                                          *)
(* ===================================================================== *)

(** C2.  For every Pod request that passes the namespace check, addLabel
    returns an allowed decision, and the decision carries a patch if and only
    if a candidate is derivable and differs from the service label (or the
    service key is absent); a candidate is derivable exactly when appName or
    car_id is among the labels.  So a pod with neither gets no patch, a pod
    whose service label equals the candidate gets the plain allow, and so
    does every Pod request whose labels are those of this pod with the
    candidate stored under service. *)
Theorem C2_patch_iff_candidate_differs (env : Env) (ar : AdmissionReview)
    (w : World) (req : AdmissionRequest) (u : Unstructured) (cs : Clientset)
    (ns : NamespaceObj) :
  PodRequest env ar w req u cs ->
  NamespacesGet cs (effectiveNamespace req u) = inl ns ->
  exists resp,
    fst (addLabel env ar w) = Done (Some resp, None)
    /\ Allowed resp = true
    /\ (is_Some (Patch resp)
        <-> exists cand, specCandidate (GetLabels u) = Some cand
                         /\ lookupLabel (GetLabels u) "service" <> Some cand)
    /\ (is_Some (specCandidate (GetLabels u))
        <-> is_Some (lookupLabel (GetLabels u) "appName")
            \/ is_Some (lookupLabel (GetLabels u) "car_id"))
    /\ (lookupLabel (GetLabels u) "appName" = None ->
        lookupLabel (GetLabels u) "car_id" = None ->
        resp = allowResponse (UID req))
    /\ (forall cand,
          specCandidate (GetLabels u) = Some cand ->
          lookupLabel (GetLabels u) "service" = Some cand ->
          resp = allowResponse (UID req))
    /\ (forall cand env2 ar2 w2 req2 u2 cs2 ns2,
          specCandidate (GetLabels u) = Some cand ->
          PodRequest env2 ar2 w2 req2 u2 cs2 ->
          NamespacesGet cs2 (effectiveNamespace req2 u2) = inl ns2 ->
          GetLabels u2 = applyServicePatch (GetLabels u) cand ->
          fst (addLabel env2 ar2 w2)
          = Done (Some (allowResponse (UID req2)), None)).
Proof.
  intros Hpod Hns.
  exists (labelDecision (UID req) (GetLabels u)).
  split. { rewrite (addLabel_pod env ar w req u cs Hpod), Hns. reflexivity. }
  split. { apply labelDecision_allowed. }
  split. { apply labelDecision_patch_iff. }
  split.
  { unfold specCandidate.
    destruct (lookupLabel (GetLabels u) "appName"),
             (lookupLabel (GetLabels u) "car_id");
      split; eauto; intros [[? ?]|[? ?]]; discriminate. }
  split.
  { intros Ha Hc. apply labelDecision_underivable.
    apply specCandidate_None. split; assumption. }
  split.
  { intros cand Hcand Hs. eapply labelDecision_same; eassumption. }
  intros cand env2 ar2 w2 req2 u2 cs2 ns2 Hcand Hpod2 Hns2 Hl2.
  rewrite (addLabel_pod env2 ar2 w2 req2 u2 cs2 Hpod2), Hns2. simpl fst.
  rewrite Hl2, (labelDecision_idempotent _ _ cand Hcand). reflexivity.
Qed.

(** The pod of the walkthrough passes the namespace check. *)
Lemma C2_patch_iff_candidate_differs_witness :
  exists resp,
    fst (addLabel (Demo.podEnv (Some Demo.nginxLabels)) (Demo.review "")
           Demo.freshWorld) = Done (Some resp, None)
    /\ Allowed resp = true
    /\ (is_Some (Patch resp)
        <-> exists cand,
              specCandidate (Some Demo.nginxLabels) = Some cand
              /\ lookupLabel (Some Demo.nginxLabels) "service" <> Some cand).
Proof.
  destruct (C2_patch_iff_candidate_differs
              (Demo.podEnv (Some Demo.nginxLabels)) (Demo.review "")
              Demo.freshWorld (Demo.request "")
              (Demo.object "Pod" (Some Demo.nginxLabels)) Demo.okClient
              {| NsName := "default"; NsLabels := None |})
    as (resp & Hrun & Hallowed & Hiff & _).
  - constructor; reflexivity.
  - reflexivity.
  - exists resp. split; [exact Hrun|]. split; [exact Hallowed|exact Hiff].
Defined.

(* ===================================================================== *)
(** ** Objects that are not Pods                                         *)
(* ===================================================================== *)

(** C3, as amended.  For every request whose projected object kind is not
    Pod, provided GetKubeClient returns without an error, addLabel returns
    the allowed decision with the request's uid, no patch and no error,
    whatever the labels and the namespace of the object; it returns before
    the namespace lookup, and issues no API call. *)
Theorem C3_non_pod_allowed (env : Env) (ar : AdmissionReview) (w : World)
    (c : option Clientset) (req : AdmissionRequest) (u : Unstructured) :
  fst (GetKubeClient env w) = Done (c, None) ->
  Request ar = Some req ->
  projectObject env req = Done (inl u) ->
  GetKind u <> "Pod" ->
  fst (addLabel env ar w)
  = Done (Some {| RespUID := UID req; Allowed := true; Patch := None;
                  RespPatchType := None |}, None)
  /\ calls (snd (addLabel env ar w)) = calls w.
Proof.
  intros Hc Hr Hp Hk.
  rewrite (addLabel_not_pod env ar w c req u Hc Hr Hp Hk).
  split; [reflexivity|]. apply GetKubeClient_calls.
Qed.

(** A Deployment that carries both source labels. *)
Lemma C3_non_pod_allowed_witness :
  let env := Demo.envOf (inl Demo.okClient)
               (inl (Demo.object "Deployment" (Some Demo.nginxLabels)))
               (inl (Demo.review "default")) in
  fst (addLabel env (Demo.review "default") Demo.freshWorld)
  = Done (Some {| RespUID := UID (Demo.request "default"); Allowed := true;
                  Patch := None; RespPatchType := None |}, None)
  /\ calls (snd (addLabel env (Demo.review "default") Demo.freshWorld))
     = calls Demo.freshWorld.
Proof.
  apply (C3_non_pod_allowed _ (Demo.review "default") Demo.freshWorld
           (Some Demo.okClient) (Demo.request "default")
           (Demo.object "Deployment" (Some Demo.nginxLabels))).
  - reflexivity.
  - reflexivity.
  - reflexivity.
  - vm_compute. discriminate.
Defined.

(** C3 as stated fails when the Kubernetes client cannot be built: the
    object is a Deployment, and the first call of addLabel returns an error
    and no decision. *)
Lemma C3_counterexample :
  let u := Demo.object "Deployment" (Some Demo.nginxLabels) in
  let env := Demo.envOf (inr "no cluster") (inl u)
               (inl (Demo.review "default")) in
  Request (Demo.review "default") = Some (Demo.request "default")
  /\ projectObject env (Demo.request "default") = Done (inl u)
  /\ GetKind u <> "Pod"
  /\ fst (addLabel env (Demo.review "default") Demo.freshWorld)
     = Done (None,
             Some (ErrGetClient (ErrCreateClientset "no cluster")))
  /\ ~ (exists resp,
          fst (addLabel env (Demo.review "default") Demo.freshWorld)
          = Done (Some resp, None)).
Proof.
  repeat split; try reflexivity.
  - vm_compute. discriminate.
  - intros (resp & Hrun). vm_compute in Hrun. discriminate Hrun.
Qed.

(* ===================================================================== *)
(** ** A Pod without a labels map                                        *)
(* ===================================================================== *)




(* ===================================================================== *)
(** ** A namespace lookup that fails                                     *)
(* ===================================================================== *)

(** addLabel never returns a response together with an error. *)
Lemma addLabel_error_without_response (env : Env) (ar : AdmissionReview)
    (w : World) resp e w' :
  addLabel env ar w = (Done (resp, Some e), w') -> resp = None.
Proof.
  intros H. pose proof (addLabel_run env ar w) as Hrun. rewrite H in Hrun.
  inversion Hrun; reflexivity.
Qed.

(** C5.  When the lookup that addLabel makes for a Pod reports an error,
    NotFound or a transport error, the call returns the error
    "failed to fetch namespace" (NamespaceUnavailable) for that namespace
    and no decision; the namespace looked up, once, is the request's, else
    the pod's, else "default"; and no call of addLabel that returns an error
    returns a response, so none returns a patch. *)
Theorem C5_namespace_unavailable (env : Env) (ar : AdmissionReview)
    (w : World) (req : AdmissionRequest) (u : Unstructured) (cs : Clientset)
    (e : apiError) :
  PodRequest env ar w req u cs ->
  NamespacesGet cs (specNamespace req u) = inr e ->
  fst (addLabel env ar w)
  = Done (None, Some (ErrFetchNamespace (specNamespace req u) e))
  /\ calls (snd (addLabel env ar w))
     = (calls w ++ [nsLookup (specNamespace req u)])%list
  /\ specNamespace req u
     = (if decide (Namespace req = "") then
          if decide (GetNamespace u = "") then "default" else GetNamespace u
        else Namespace req)
  /\ (forall ar' w' resp err w'',
        addLabel env ar' w' = (Done (resp, Some err), w'') -> resp = None).
Proof.
  intros Hpod Hns. rewrite <- effectiveNamespace_spec in *.
  rewrite (addLabel_pod env ar w req u cs Hpod), Hns.
  split; [reflexivity|]. split.
  { simpl. rewrite GetKubeClient_calls. reflexivity. }
  split; [apply effectiveNamespace_spec|].
  intros ar' w' resp err w''. apply addLabel_error_without_response.
Qed.

(** A pod submitted without a namespace to a cluster that has none: the
    lookup is made for "default" and reports NotFound. *)
Lemma C5_namespace_unavailable_witness :
  let env := Demo.envOf (inl Demo.emptyClient)
               (inl (Demo.object "Pod" (Some Demo.nginxLabels)))
               (inl (Demo.review "")) in
  fst (addLabel env (Demo.review "") Demo.freshWorld)
  = Done (None, Some (ErrFetchNamespace "default" (NotFound "default")))
  /\ calls (snd (addLabel env (Demo.review "") Demo.freshWorld))
     = [nsLookup "default"].
Proof.
  destruct (C5_namespace_unavailable
              (Demo.envOf (inl Demo.emptyClient)
                 (inl (Demo.object "Pod" (Some Demo.nginxLabels)))
                 (inl (Demo.review "")))
              (Demo.review "") Demo.freshWorld (Demo.request "")
              (Demo.object "Pod" (Some Demo.nginxLabels)) Demo.emptyClient
              (NotFound "default"))
    as (Hrun & Hcalls & _).
  - constructor; reflexivity.
  - reflexivity.
  - split; [exact Hrun | exact Hcalls].
Defined.

(* ===================================================================== *)
(** ** The decoder                                                       *)
(* ===================================================================== *)

(** C6.  parseRequest fails with the content-type error whenever the
    Content-Type header is not exactly application/json; otherwise with the
    decoding error whenever the body does not decode to an AdmissionReview;
    otherwise with the missing-request error whenever the review has no
    request; otherwise it returns the review.  It touches nothing: when it
    fails, the handler answers 400 with the message and leaves the world as
    it was. *)
Theorem C6_parseRequest (env : Env) (r : HttpRequest) :
  (Header_Get (Header r) "Content-Type" <> "application/json" ->
   parseRequest env r = (None, Some ErrContentType))
  /\ (forall cause,
        Header_Get (Header r) "Content-Type" = "application/json" ->
        json_Decode env (Body r) = inr cause ->
        parseRequest env r = (None, Some (ErrDecode cause)))
  /\ (forall ar,
        Header_Get (Header r) "Content-Type" = "application/json" ->
        json_Decode env (Body r) = inl ar ->
        Request ar = None ->
        parseRequest env r = (None, Some ErrMissingRequest))
  /\ (forall ar req,
        Header_Get (Header r) "Content-Type" = "application/json" ->
        json_Decode env (Body r) = inl ar ->
        Request ar = Some req ->
        parseRequest env r = (Some ar, None))
  /\ (forall w e,
        snd (parseRequest env r) = Some e ->
        addLabelHook env r w
        = (Done (http_Error (Error e) StatusBadRequest), w)).
Proof.
  repeat split.
  - intros Hct. unfold parseRequest.
    apply String.eqb_neq in Hct. rewrite Hct. reflexivity.
  - intros cause Hct Hd. unfold parseRequest. rewrite Hct, Hd. reflexivity.
  - intros ar Hct Hd Hr. unfold parseRequest. rewrite Hct, Hd, Hr.
    reflexivity.
  - intros ar req Hct Hd Hr. unfold parseRequest. rewrite Hct, Hd, Hr.
    reflexivity.
  - intros w e He. unfold addLabelHook.
    destruct (parseRequest env r) as [in_ err]. simpl in He. subst err.
    reflexivity.
Qed.

(** One request for each of the four results. *)
Lemma C6_parseRequest_witness :
  let good := Demo.jsonRequest ["application/json"] in
  let charset := Demo.jsonRequest ["application/json; charset=utf-8"] in
  let env decoded :=
    Demo.envOf (inl Demo.okClient)
      (inl (Demo.object "Pod" (Some Demo.nginxLabels))) decoded in
  let empty :=
    {| TypeMeta := Demo.reviewGVK; Request := None; Response := None |} in
  parseRequest (env (inl (Demo.review ""))) charset
  = (None, Some ErrContentType)
  /\ parseRequest (env (inr "unexpected EOF")) good
     = (None, Some (ErrDecode "unexpected EOF"))
  /\ parseRequest (env (inl empty)) good = (None, Some ErrMissingRequest)
  /\ parseRequest (env (inl (Demo.review ""))) good
     = (Some (Demo.review ""), None).
Proof.
  intros good charset env empty. split; [|split; [|split]].
  - apply (C6_parseRequest (env (inl (Demo.review ""))) charset).
    vm_compute. discriminate.
  - apply (C6_parseRequest (env (inr "unexpected EOF")) good); reflexivity.
  - apply (C6_parseRequest (env (inl empty)) good) with (ar := empty);
      reflexivity.
  - apply (C6_parseRequest (env (inl (Demo.review ""))) good)
      with (req := Demo.request ""); reflexivity.
Defined.

(* ===================================================================== *)
(** ** Every decision allows, and echoes the uid                         *)
(* ===================================================================== *)

(** C7.  Whenever addLabel returns a response, the error is nil, the
    response's uid is the uid of the request and Allowed is true: no way
    through the function builds a response that denies. *)
Theorem C7_uid_and_allowed (env : Env) (ar : AdmissionReview) (w : World)
    (resp : AdmissionResponse) (err : option error) (w' : World) :
  addLabel env ar w = (Done (Some resp, err), w') ->
  err = None
  /\ Allowed resp = true
  /\ exists req, Request ar = Some req /\ RespUID resp = UID req.
Proof.
  intros H. pose proof (addLabel_run env ar w) as Hrun. rewrite H in Hrun.
  inversion Hrun; subst.
  - split; [reflexivity|]. split; [reflexivity|]. eauto.
  - split; [reflexivity|].
    destruct (labelDecision_allowed (UID req) (GetLabels u)) as [Ha Hu].
    split; [exact Ha|]. exists req. split; [|exact Hu].
    match goal with Hp : PodRequest _ _ _ _ _ _ |- _ => apply Hp end.
Qed.

Lemma C7_uid_and_allowed_witness :
  let resp := withPatch (allowResponse (UID (Demo.request "")))
                (patchAddKey "nginx-01234") in
  None = (None : option error)
  /\ Allowed resp = true
  /\ exists req,
       Request (Demo.review "") = Some req /\ RespUID resp = UID req.
Proof.
  apply (C7_uid_and_allowed (Demo.podEnv (Some Demo.nginxLabels))
           (Demo.review "") Demo.freshWorld _ None
           (logCall (nsLookup "default")
              {| clientset := Some Demo.okClient; initOnce := true;
                 calls := [] |})).
  reflexivity.
Defined.

(* ===================================================================== *)
(** ** The API calls of a run                                            *)
(* ===================================================================== *)

Lemma PodRequest_functional (env : Env) (ar : AdmissionReview) (w : World)
    req u cs req' u' cs' :
  PodRequest env ar w req u cs ->
  PodRequest env ar w req' u' cs' ->
  req = req' /\ u = u' /\ cs = cs'.
Proof.
  intros [Hc Hr Hp Hk] [Hc' Hr' Hp' Hk'].
  rewrite Hr in Hr'. injection Hr' as <-.
  rewrite Hp in Hp'. injection Hp' as <-.
  rewrite Hc in Hc'. injection Hc' as <-. auto.
Qed.

(** C8, as amended.  Every call of addLabel issues at most one API call, a
    GET of one namespace, and never a write; it issues that lookup exactly
    when the client is there, the request is present and its object
    projects to a Pod.  A call that fails to get the client, fails to
    project the object, or finds another kind than Pod makes no lookup. *)
Theorem C8_at_most_one_lookup (env : Env) (ar : AdmissionReview) (w : World) :
  exists new,
    calls (snd (addLabel env ar w)) = (calls w ++ new)%list
    /\ (new = [] \/ exists name, new = [nsLookup name])
    /\ existsb isWrite new = false
    /\ (length (filter isNamespaceLookup new) = 1
        <-> exists req u cs, PodRequest env ar w req u cs).
Proof.
  pose proof (addLabel_run env ar w) as Hrun.
  pose proof (GetKubeClient_calls env w) as Hcalls.
  destruct Hrun as [c e Hc | c msg Hc Hr | c req msg Hc Hr Hp
                   | c req e Hc Hr Hp
                   | c req u Hc Hr Hp Hk | req u msg Hc Hr Hp Hk
                   | req u cs e Hpod Hns | req u cs ns Hpod Hns].
  1-6: exists []; simpl snd; rewrite Hcalls, app_nil_r;
       split; [reflexivity|]; split; [left; reflexivity|];
       split; [reflexivity|]; split; [discriminate|];
       intros (req' & u' & cs' & [Hc' Hr' Hp' Hk']); congruence.
  1-2: exists [nsLookup (effectiveNamespace req u)]; simpl; rewrite Hcalls;
       split; [reflexivity|]; split; [right; eauto|];
       split; [reflexivity|]; split; [eauto|reflexivity].
Qed.

(** C8 as stated fails for an object that is not a Pod: the call makes no
    namespace lookup, where the claim has exactly one. *)
Lemma C8_counterexample :
  let u := Demo.object "Deployment" (Some Demo.nginxLabels) in
  let env := Demo.envOf (inl Demo.okClient) (inl u)
               (inl (Demo.review "default")) in
  let after := snd (addLabel env (Demo.review "default") Demo.freshWorld) in
  fst (addLabel env (Demo.review "default") Demo.freshWorld)
  = Done (Some (allowResponse (UID (Demo.request "default"))), None)
  /\ newCalls Demo.freshWorld after = []
  /\ length (filter isNamespaceLookup (newCalls Demo.freshWorld after)) <> 1.
Proof.
  repeat split; try reflexivity. vm_compute. discriminate.
Qed.

(* ===================================================================== *)
(** ** The patch bytes as a JSON Patch document                          *)
(* ===================================================================== *)

(** For a candidate of plain characters, whatever patch is attached is a
    valid JSON Patch document of one add or replace operation on
    /metadata/labels/service. *)
Lemma labelDecision_patch_plain uid (labels : option (gmap string string))
    cand p :
  deriveServiceVal labels = Some cand ->
  Json.plainString cand = true ->
  Patch (labelDecision uid labels) = Some p ->
  Json.labelPatchDocument p = true
  /\ exists o, Json.readPatch p = Some [o].
Proof.
  intros Hcand Hplain Hp.
  apply labelDecision_patch_inv in Hp
    as (m & cand' & -> & Hcand' & [[_ ->] | (old & _ & _ & ->)]);
    rewrite Hcand in Hcand'; injection Hcand' as <-;
    unfold Json.labelPatchDocument.
  - rewrite (readPatch_patchAddKey cand Hplain). split; [reflexivity|eauto].
  - rewrite (readPatch_patchReplaceKey cand Hplain). split; [reflexivity|eauto].
Qed.

(** C9 at two inputs.  A pod whose appName is the letter a, a double quote
    and the letter b gets a patch whose bytes are not a JSON text: the value is spliced between the quotes as it
    is, and its quote ends the string early.  A pod whose appName closes the
    string and the object and opens a second one gets a patch that is a
    valid JSON Patch document, but with a remove operation on
    /spec/securityContext next to the add. *)
Theorem C9_value_spliced_unescaped :
  (exists p,
     fst (addLabel (Demo.podEnv (Some Demo.quoteLabels)) (Demo.review "")
            Demo.freshWorld)
     = Done (Some (withPatch (allowResponse (UID (Demo.request ""))) p), None)
     /\ p = patchAddKey ("a" +:+ DQ +:+ "b")
     /\ Json.parse p = None
     /\ Json.validPatchDocument p = false
     /\ Json.labelPatchDocument p = false)
  /\ (exists p,
        fst (addLabel (Demo.podEnv (Some Demo.injectedLabels)) (Demo.review "")
               Demo.freshWorld)
        = Done (Some (withPatch (allowResponse (UID (Demo.request ""))) p),
                None)
        /\ p = patchAddKey Demo.injectedValue
        /\ Json.readPatch p
           = Some [addServiceOp "x";
                   {| Json.op := Json.OpRemove;
                      Json.path := "/spec/securityContext";
                      Json.value := None; Json.from := None |}]
        /\ Json.validPatchDocument p = true
        /\ Json.labelPatchDocument p = false).
Proof.
  split; eexists; (split; [vm_compute; reflexivity|]);
    repeat split; vm_compute; reflexivity.
Qed.

(* ===================================================================== *)
(** ** The operations of a returned patch                                *)
(* ===================================================================== *)

(** Whenever addLabel returns a decision that carries a patch, the labels
    map of the pod was there, and the patch is one of the two documents
    written as a single operation, the add or the replace of
    /metadata/labels/service with the candidate between the quotes; it is
    never the document written as two operations.  For a candidate of plain
    characters the document reads as exactly one operation.  A nil labels
    map has no derivable candidate, so the function returns the plain allow
    before it builds a patch. *)
Lemma patch_is_single_operation_document (env : Env) (ar : AdmissionReview)
    (w : World) (resp : AdmissionResponse) (err : option error) (w' : World)
    (p : string) :
  addLabel env ar w = (Done (Some resp, err), w') ->
  Patch resp = Some p ->
  (exists req u m cand,
     Request ar = Some req
     /\ projectObject env req = Done (inl u)
     /\ GetLabels u = Some m
     /\ deriveServiceVal (Some m) = Some cand
     /\ (p = patchAddKey cand \/ p = patchReplaceKey cand)
     /\ (Json.plainString cand = true ->
         exists o, Json.readPatch p = Some [o]))
  /\ (forall v, p <> patchAddMapAndKey v)
  /\ deriveServiceVal None = None
  /\ (forall uid, labelDecision uid None = allowResponse uid).
Proof.
  intros H Hp. pose proof (addLabel_run env ar w) as Hrun. rewrite H in Hrun.
  inversion Hrun as [ | | | | c req u Hc Hr Hpr Hk | | |
                      req u cs ns Hpod Hns]; subst.
  - discriminate Hp.
  - pose proof Hp as Hp'.
    apply labelDecision_patch_inv in Hp'
      as (m & cand & Hl & Hcand & Hdoc).
    rewrite Hl in Hcand.
    assert (Hone : p = patchAddKey cand \/ p = patchReplaceKey cand).
    { destruct Hdoc as [[_ ->] | (old & _ & _ & ->)]; auto. }
    split.
    { exists req, u, m, cand. destruct Hpod as [_ Hr Hpr _].
      repeat (split; [assumption|]).
      intros Hplain.
      eapply labelDecision_patch_plain; [|exact Hplain|exact Hp].
      rewrite Hl. exact Hcand. }
    split.
    { intros v. destruct Hone as [-> | ->].
      - apply patchAddKey_not_two_operations.
      - apply patchReplaceKey_not_two_operations. }
    split; reflexivity.
Qed.

(** C10 at two inputs.  The pod's labels map is there and addLabel returns
    a decision with a patch, as the claim has it; but for an appName that
    closes the string and the object and opens a second one the patch holds
    two operations, an add and a remove, and for an appName with a double
    quote in it the patch is no JSON text and holds no operation that can
    be read. *)
Theorem C10_spliced_value_breaks_one_operation :
  (exists p ops,
     GetLabels (Demo.object "Pod" (Some Demo.injectedLabels))
     = Some Demo.injectedLabels
     /\ fst (addLabel (Demo.podEnv (Some Demo.injectedLabels)) (Demo.review "")
              Demo.freshWorld)
        = Done (Some (withPatch (allowResponse (UID (Demo.request ""))) p),
                None)
     /\ Json.readPatch p = Some ops
     /\ length ops = 2
     /\ map Json.op ops = [Json.OpAdd; Json.OpRemove])
  /\ (exists p,
        GetLabels (Demo.object "Pod" (Some Demo.quoteLabels))
        = Some Demo.quoteLabels
        /\ fst (addLabel (Demo.podEnv (Some Demo.quoteLabels)) (Demo.review "")
                 Demo.freshWorld)
           = Done (Some (withPatch (allowResponse (UID (Demo.request ""))) p),
                   None)
        /\ Json.readPatch p = None).
Proof.
  split.
  - eexists. eexists. split; [reflexivity|].
    split; [vm_compute; reflexivity|].
    split; [vm_compute; reflexivity|]. split; reflexivity.
  - eexists. split; [reflexivity|].
    split; [vm_compute; reflexivity|]. vm_compute. reflexivity.
Qed.

(* ===================================================================== *)
(** ** The client singleton                                              *)
(* ===================================================================== *)

(** X1.  initializeClient returns a client or an error, never both and never
    neither: a nil client always comes with the reason. *)
Theorem initializeClient_client_xor_error (env : Env) :
  (exists c, initializeClient env = (Some c, None))
  \/ (exists e, initializeClient env = (None, Some e)).
Proof.
  unfold initializeClient.
  destruct (InClusterConfig env) as [config|_].
  - destruct (NewForConfig env config); eauto.
  - destruct (BuildConfigFromFlags env "" (getKubeConfigPath env))
      as [config|err]; [|eauto].
    destruct (NewForConfig env config); eauto.
Qed.

(** X2.  The initializer runs once.  After any call of GetKubeClient the
    once-flag is set, and a further call hands out the stored client with a
    nil error and changes nothing; the first call stores what the
    initializer returned. *)
Theorem GetKubeClient_once (env : Env) (w : World) :
  let w1 := snd (GetKubeClient env w) in
  initOnce w1 = true
  /\ GetKubeClient env w1 = (Done (clientset w1, None), w1)
  /\ calls w1 = calls w
  /\ (initOnce w = true -> GetKubeClient env w = (Done (clientset w, None), w))
  /\ (initOnce w = false ->
      fst (GetKubeClient env w)
      = Done (fst (initializeClient env), snd (initializeClient env))
      /\ clientset w1 = fst (initializeClient env)).
Proof.
  intros w1.
  assert (Hinit : initOnce w1 = true).
  { subst w1. unfold GetKubeClient. destruct (initOnce w) eqn:E; [exact E|].
    destruct (initializeClient env); reflexivity. }
  split; [exact Hinit|].
  split; [apply GetKubeClient_initialised, Hinit|].
  split; [apply GetKubeClient_calls|].
  split; [apply GetKubeClient_initialised|].
  intros E. subst w1. unfold GetKubeClient. rewrite E.
  destruct (initializeClient env); split; reflexivity.
Qed.

(** X3.  A failed initialisation is reported once and then forgotten.  When
    the initializer fails on the first call, that call of addLabel returns
    the error; from then on GetKubeClient returns a nil client with a nil
    error, so every later request for a Pod panics on the nil client, and
    every later request for another kind is allowed. *)
Theorem failed_initialisation_is_reported_once (env : Env) (w : World)
    (ar1 ar2 : AdmissionReview) (e : error) (req : AdmissionRequest)
    (u : Unstructured) :
  initOnce w = false ->
  snd (initializeClient env) = Some e ->
  Request ar2 = Some req ->
  projectObject env req = Done (inl u) ->
  let w1 := snd (addLabel env ar1 w) in
  fst (addLabel env ar1 w) = Done (None, Some (ErrGetClient e))
  /\ GetKubeClient env w1 = (Done (None, None), w1)
  /\ (GetKind u = "Pod" -> exists msg, fst (addLabel env ar2 w1) = Panic msg)
  /\ (GetKind u <> "Pod" ->
      fst (addLabel env ar2 w1)
      = Done (Some (allowResponse (UID req)), None)).
Proof.
  intros Hfresh He Hr Hp w1.
  destruct (initializeClient_client_xor_error env) as [[c Hi]|[e' Hi]];
    rewrite Hi in He; [discriminate|]. injection He as ->.
  assert (Hc : fst (GetKubeClient env w) = Done (None, Some e)).
  { destruct (GetKubeClient_once env w) as (_ & _ & _ & _ & H).
    destruct (H Hfresh) as [-> _]. rewrite Hi. reflexivity. }
  assert (Hw1 : w1 = snd (GetKubeClient env w)).
  { subst w1. rewrite (addLabel_client_error env ar1 w None e Hc). reflexivity. }
  assert (Hg : GetKubeClient env w1 = (Done (None, None), w1)).
  { destruct (GetKubeClient_once env w) as (_ & Hagain & _ & _ & H).
    destruct (H Hfresh) as [_ Hcl]. rewrite Hi in Hcl. simpl in Hcl.
    rewrite Hw1, Hagain, Hcl. reflexivity. }
  split. { rewrite (addLabel_client_error env ar1 w None e Hc). reflexivity. }
  split; [exact Hg|].
  assert (Hg' : fst (GetKubeClient env w1) = Done (None, None))
    by (rewrite Hg; reflexivity).
  split.
  - intros Hk.
    destruct (addLabel_nil_client env ar2 w1 req u Hg' Hr Hp Hk) as [msg ->].
    eauto.
  - intros Hk. rewrite (addLabel_not_pod env ar2 w1 None req u Hg' Hr Hp Hk).
    reflexivity.
Qed.

Lemma failed_initialisation_is_reported_once_witness :
  let env := Demo2.noClusterEnv (Demo.object "Pod" (Some Demo.nginxLabels)) in
  let w1 := snd (addLabel env (Demo.review "") Demo.freshWorld) in
  fst (addLabel env (Demo.review "") Demo.freshWorld)
  = Done (None, Some (ErrGetClient (ErrCreateClientset "no cluster")))
  /\ GetKubeClient env w1 = (Done (None, None), w1)
  /\ (GetKind (Demo.object "Pod" (Some Demo.nginxLabels)) = "Pod" ->
      exists msg, fst (addLabel env (Demo.review "default") w1) = Panic msg)
  /\ (GetKind (Demo.object "Pod" (Some Demo.nginxLabels)) <> "Pod" ->
      fst (addLabel env (Demo.review "default") w1)
      = Done (Some (allowResponse (UID (Demo.request "default"))), None)).
Proof.
  apply (failed_initialisation_is_reported_once
           (Demo2.noClusterEnv (Demo.object "Pod" (Some Demo.nginxLabels)))
           Demo.freshWorld (Demo.review "") (Demo.review "default")
           (ErrCreateClientset "no cluster") (Demo.request "default")
           (Demo.object "Pod" (Some Demo.nginxLabels)));
    reflexivity.
Defined.

(* ===================================================================== *)
(** ** The handler                                                       *)
(* ===================================================================== *)

Lemma parseRequest_shape (env : Env) (r : HttpRequest) :
  (exists e, parseRequest env r = (None, Some e))
  \/ (exists ar req, parseRequest env r = (Some ar, None)
                     /\ Request ar = Some req).
Proof.
  unfold parseRequest.
  destruct (negb _); [eauto|].
  destruct (json_Decode env (Body r)) as [ar|err]; [|eauto].
  destruct (Request ar) as [req|] eqn:Hr; simpl; eauto.
Qed.

Lemma addLabelHook_rejected (env : Env) (r : HttpRequest) (w : World) e :
  snd (parseRequest env r) = Some e ->
  addLabelHook env r w = (Done (http_Error (Error e) StatusBadRequest), w).
Proof.
  intros He. unfold addLabelHook.
  destruct (parseRequest env r) as [in_ err]. simpl in He. subst err.
  reflexivity.
Qed.

Lemma addLabelHook_parsed (env : Env) (r : HttpRequest) (w : World) ar :
  parseRequest env r = (Some ar, None) ->
  addLabelHook env r w
  = match addLabel env ar w with
    | (Done (out, Some err), w') =>
        (Done (http_Error (Error err) StatusInternalServerError), w')
    | (Done (out, None), w') =>
        (Done {| StatusCode := StatusOK; ContentType := "application/json";
                 RespBody := ReviewJSON {| TypeMeta := TypeMeta ar;
                                           Request := None;
                                           Response := out |} |}, w')
    | (Panic msg, w') => (Panic msg, w')
    end.
Proof.
  intros Hp. unfold addLabelHook. rewrite Hp. unfold bind. simpl.
  destruct (addLabel env ar w) as [[[out [err|]]|msg] w']; reflexivity.
Qed.

(** A nil error of addLabel comes with a response. *)
Lemma addLabel_nil_error_has_response (env : Env) (ar : AdmissionReview)
    (w : World) out w' :
  addLabel env ar w = (Done (out, None), w') -> exists resp, out = Some resp.
Proof.
  intros H. pose proof (addLabel_run env ar w) as Hrun. rewrite H in Hrun.
  inversion Hrun; eauto.
Qed.

Lemma labelDecision_patchType uid (labels : option (gmap string string)) :
  is_Some (Patch (labelDecision uid labels))
  <-> is_Some (RespPatchType (labelDecision uid labels)).
Proof.
  rewrite labelDecision_cases.
  destruct (specCandidate labels); [|simpl; split; intros [? ?]; discriminate].
  destruct (lookupLabel labels serviceLabelKey);
    [destruct (decide _)|]; simpl; split; eauto; intros [? ?]; discriminate.
Qed.

(** X4.  PatchType goes with Patch: on every response of addLabel the patch
    type is set exactly when a patch is attached. *)
Theorem addLabel_patchType_iff_patch (env : Env) (ar : AdmissionReview)
    (w : World) (resp : AdmissionResponse) (err : option error) (w' : World) :
  addLabel env ar w = (Done (Some resp, err), w') ->
  (is_Some (Patch resp) <-> is_Some (RespPatchType resp)).
Proof.
  intros H. pose proof (addLabel_run env ar w) as Hrun. rewrite H in Hrun.
  inversion Hrun; subst.
  - simpl. split; intros [? ?]; discriminate.
  - apply labelDecision_patchType.
Qed.

Lemma addLabel_patchType_iff_patch_witness :
  let resp := withPatch (allowResponse (UID (Demo.request "")))
                (patchAddKey "nginx-01234") in
  is_Some (Patch resp) <-> is_Some (RespPatchType resp).
Proof.
  apply (addLabel_patchType_iff_patch (Demo.podEnv (Some Demo.nginxLabels))
           (Demo.review "") Demo.freshWorld _ None
           (logCall (nsLookup "default") Demo2.readyWorld)).
  reflexivity.
Defined.

(** X5.  When the handler panics.  It panics exactly when the request
    decodes to a review with a request, GetKubeClient returns without an
    error, and either the conversion of the object panics, or the client is
    nil, which takes an initializer that ran before and left none, and the
    object projects to a Pod.  It never panics on a review without a
    request, which the decoder turns away. *)
Theorem addLabelHook_panics_iff (env : Env) (r : HttpRequest) (w : World) :
  (exists msg, fst (addLabelHook env r w) = Panic msg)
  <-> exists ar req c,
        parseRequest env r = (Some ar, None)
        /\ Request ar = Some req
        /\ fst (GetKubeClient env w) = Done (c, None)
        /\ ((exists msg, projectObject env req = Panic msg)
            \/ (c = None /\ initOnce w = true /\ clientset w = None
                /\ exists u, projectObject env req = Done (inl u)
                             /\ GetKind u = "Pod")).
Proof.
  split.
  - intros [msg Hpanic].
    destruct (parseRequest_shape env r) as [[e Hp]|(ar & req & Hp & Hr)].
    { rewrite (addLabelHook_rejected env r w e) in Hpanic
        by (rewrite Hp; reflexivity). discriminate. }
    rewrite (addLabelHook_parsed env r w ar Hp) in Hpanic.
    pose proof (addLabel_run env ar w) as Hrun.
    destruct (addLabel env ar w) as [[[out [err|]]|msg'] w'];
      simpl in Hpanic; try discriminate.
    inversion Hrun as [ | c m Hc Hnil | c req' m Hc Hr' Hpr | |
                      | req' u m Hc Hr' Hpr Hk | | ];
      subst; [congruence| |].
    + assert (Hreq : req' = req) by congruence. subst req'.
      exists ar, req, c. repeat (split; [assumption|]). left. eauto.
    + assert (Hreq : req' = req) by congruence. subst req'.
      exists ar, req, None. repeat (split; [assumption|]). right.
      split; [reflexivity|].
      destruct (initOnce w) eqn:Hinit.
      * rewrite (GetKubeClient_initialised env w Hinit) in Hc. simpl in Hc.
        injection Hc as Hc. split; [reflexivity|]. split; [exact Hc|]. eauto.
      * destruct (GetKubeClient_once env w) as (_ & _ & _ & _ & H).
        destruct (H Hinit) as [Hfst _]. rewrite Hfst in Hc.
        destruct (initializeClient_client_xor_error env) as [[c Hi]|[e Hi]];
          rewrite Hi in Hc; discriminate.
  - intros (ar & req & c & Hp & Hr & Hc & Hwhy).
    rewrite (addLabelHook_parsed env r w ar Hp).
    destruct Hwhy as [[msg Hpr] | (-> & _ & _ & u & Hpr & Hk)].
    + rewrite (addLabel_projection_panic env ar w c req msg Hc Hr Hpr). eauto.
    + destruct (addLabel_nil_client env ar w req u Hc Hr Hpr Hk) as [msg ->].
      eauto.
Qed.

(** X6.  A 200 answer of the handler is a review in JSON that echoes the
    group, version and kind of the incoming review, has no request, and
    carries the response of addLabel: allowed, with the uid of the decoded
    request. *)
Theorem addLabelHook_ok_response (env : Env) (r : HttpRequest) (w : World)
    (resp : HttpResponse) (w' : World) :
  addLabelHook env r w = (Done resp, w') ->
  StatusCode resp = StatusOK ->
  exists ar req out,
    parseRequest env r = (Some ar, None)
    /\ Request ar = Some req
    /\ addLabel env ar w = (Done (Some out, None), w')
    /\ ContentType resp = "application/json"
    /\ RespBody resp = ReviewJSON {| TypeMeta := TypeMeta ar; Request := None;
                                     Response := Some out |}
    /\ RespUID out = UID req
    /\ Allowed out = true.
Proof.
  intros Hhook Hstatus.
  destruct (parseRequest_shape env r) as [[e Hp]|(ar & req & Hp & Hr)].
  { rewrite (addLabelHook_rejected env r w e) in Hhook
      by (rewrite Hp; reflexivity).
    injection Hhook as <- _. discriminate Hstatus. }
  rewrite (addLabelHook_parsed env r w ar Hp) in Hhook.
  pose proof (addLabel_run env ar w) as Hrun.
  destruct (addLabel env ar w) as [[[out [err|]]|msg] w1] eqn:Hadd;
    [injection Hhook as <- _; discriminate Hstatus| |discriminate].
  injection Hhook as <- <-.
  destruct (addLabel_nil_error_has_response env ar w out w1 Hadd) as [o ->].
  exists ar, req, o. repeat (split; [reflexivity || assumption|]).
  inversion Hrun as [ | | | | c req' u Hc Hr' Hpr Hk | | |
                      req' u cs ns Hpod Hns]; subst.
  - assert (req' = req) by congruence. subst. split; reflexivity.
  - assert (req' = req) by (destruct Hpod; congruence). subst.
    destruct (labelDecision_allowed (UID req) (GetLabels u)); auto.
Qed.

Lemma addLabelHook_ok_response_witness :
  let env := Demo.podEnv (Some Demo.nginxLabels) in
  let r := Demo.jsonRequest ["application/json"] in
  exists ar req out,
    parseRequest env r = (Some ar, None)
    /\ Request ar = Some req
    /\ addLabel env ar Demo.freshWorld
       = (Done (Some out, None), logCall (nsLookup "default") Demo2.readyWorld)
    /\ "application/json" = "application/json"
    /\ ReviewJSON {| TypeMeta := Demo.reviewGVK; Request := None;
                     Response := Some (withPatch
                                         (allowResponse (UID (Demo.request "")))
                                         (patchAddKey "nginx-01234")) |}
       = ReviewJSON {| TypeMeta := TypeMeta ar; Request := None;
                       Response := Some out |}
    /\ RespUID out = UID req
    /\ Allowed out = true.
Proof.
  apply (addLabelHook_ok_response (Demo.podEnv (Some Demo.nginxLabels))
           (Demo.jsonRequest ["application/json"]) Demo.freshWorld
           {| StatusCode := StatusOK; ContentType := "application/json";
              RespBody := ReviewJSON
                {| TypeMeta := Demo.reviewGVK; Request := None;
                   Response := Some (withPatch
                                       (allowResponse (UID (Demo.request "")))
                                       (patchAddKey "nginx-01234")) |} |}
           (logCall (nsLookup "default") Demo2.readyWorld));
    reflexivity.
Defined.

(** X7.  Every other answer of the handler is plain text, the message of the
    error and a newline: status 400 exactly for an error of the decoder, in
    which case nothing else has happened, and status 500 exactly for an
    error of addLabel.  No such answer carries a review or a patch. *)
Theorem addLabelHook_error_response (env : Env) (r : HttpRequest) (w : World)
    (resp : HttpResponse) (w' : World) :
  addLabelHook env r w = (Done resp, w') ->
  StatusCode resp <> StatusOK ->
  exists e,
    RespBody resp = PlainText (Error e +:+ LF)
    /\ ContentType resp = "text/plain; charset=utf-8"
    /\ ((StatusCode resp = StatusBadRequest
         /\ snd (parseRequest env r) = Some e /\ w' = w)
        \/ (StatusCode resp = StatusInternalServerError
            /\ exists ar, parseRequest env r = (Some ar, None)
                          /\ addLabel env ar w = (Done (None, Some e), w'))).
Proof.
  intros Hhook Hstatus.
  destruct (parseRequest_shape env r) as [[e Hp]|(ar & req & Hp & Hr)].
  { rewrite (addLabelHook_rejected env r w e) in Hhook
      by (rewrite Hp; reflexivity).
    injection Hhook as <- <-. exists e.
    split; [reflexivity|]. split; [reflexivity|]. left.
    rewrite Hp. auto. }
  rewrite (addLabelHook_parsed env r w ar Hp) in Hhook.
  destruct (addLabel env ar w) as [[[out [err|]]|msg] w1] eqn:Hadd;
    [| injection Hhook as <- _; contradiction Hstatus; reflexivity
     | discriminate].
  injection Hhook as <- <-. exists err.
  split; [reflexivity|]. split; [reflexivity|]. right.
  split; [reflexivity|]. exists ar. split; [exact Hp|].
  rewrite (addLabel_error_without_response env ar w out err w1 Hadd) in Hadd.
  exact Hadd.
Qed.

Lemma addLabelHook_error_response_witness :
  let env := Demo.envOf (inl Demo.emptyClient)
               (inl (Demo.object "Pod" (Some Demo.nginxLabels)))
               (inl (Demo.review "")) in
  let r := Demo.jsonRequest ["application/json"] in
  let w' := logCall (nsLookup "default")
              {| clientset := Some Demo.emptyClient; initOnce := true;
                 calls := [] |} in
  exists e,
    PlainText (Error (ErrFetchNamespace "default" (NotFound "default")) +:+ LF)
    = PlainText (Error e +:+ LF)
    /\ "text/plain; charset=utf-8" = "text/plain; charset=utf-8"
    /\ ((StatusInternalServerError = StatusBadRequest
         /\ snd (parseRequest env r) = Some e /\ w' = Demo.freshWorld)
        \/ (StatusInternalServerError = StatusInternalServerError
            /\ exists ar, parseRequest env r = (Some ar, None)
                          /\ addLabel env ar Demo.freshWorld
                             = (Done (None, Some e), w'))).
Proof.
  apply (addLabelHook_error_response
           (Demo.envOf (inl Demo.emptyClient)
              (inl (Demo.object "Pod" (Some Demo.nginxLabels)))
              (inl (Demo.review "")))
           (Demo.jsonRequest ["application/json"]) Demo.freshWorld
           (http_Error
              (Error (ErrFetchNamespace "default" (NotFound "default")))
              StatusInternalServerError)
           (logCall (nsLookup "default")
              {| clientset := Some Demo.emptyClient; initOnce := true;
                 calls := [] |})).
  - reflexivity.
  - vm_compute. discriminate.
Defined.

(** The world a call of addLabel leaves. *)
Lemma addLabel_world (env : Env) (ar : AdmissionReview) (w : World) :
  snd (addLabel env ar w) = snd (GetKubeClient env w)
  \/ exists req u,
       snd (addLabel env ar w)
       = logCall (nsLookup (effectiveNamespace req u))
           (snd (GetKubeClient env w)).
Proof.
  pose proof (addLabel_run env ar w) as Hrun.
  destruct Hrun; simpl; eauto.
Qed.

(** X8.  What a request can change.  Serving a request issues at most one
    API call, a GET of a namespace with a non-empty name, and never a
    write; it sets the once-flag at most, and once the initializer has run
    the stored client is never touched again. *)
Theorem addLabelHook_effects (env : Env) (r : HttpRequest) (w : World) :
  let w' := snd (addLabelHook env r w) in
  (exists new,
     calls w' = (calls w ++ new)%list
     /\ (new = [] \/ exists name, name <> "" /\ new = [nsLookup name])
     /\ existsb isWrite new = false)
  /\ (initOnce w = true -> initOnce w' = true /\ clientset w' = clientset w)
  /\ (initOnce w = false -> initOnce w' = false ->
      w' = w /\ exists e, snd (parseRequest env r) = Some e).
Proof.
  intros w'.
  destruct (parseRequest_shape env r) as [[e Hp]|(ar & req & Hp & Hr)].
  { assert (Hw : w' = w).
    { subst w'. rewrite (addLabelHook_rejected env r w e)
        by (rewrite Hp; reflexivity). reflexivity. }
    rewrite Hw. split.
    { exists []. rewrite app_nil_r. auto. }
    split; [auto|]. intros _ _. split; [reflexivity|].
    exists e. rewrite Hp. reflexivity. }
  assert (Hw : w' = snd (addLabel env ar w)).
  { subst w'. rewrite (addLabelHook_parsed env r w ar Hp).
    destruct (addLabel env ar w) as [[[out [err|]]|msg] w1]; reflexivity. }
  destruct (GetKubeClient_once env w) as (Hset & _ & Hcalls & Hinit & _).
  simpl in Hset, Hcalls.
  destruct (addLabel_world env ar w) as [Hsame | (req' & u & Hlook)].
  - rewrite Hw, Hsame. split.
    { exists []. rewrite app_nil_r, Hcalls. auto. }
    split.
    { intros Hi. rewrite (Hinit Hi). auto. }
    intros _ Hno. rewrite Hset in Hno. discriminate.
  - rewrite Hw, Hlook. simpl. split.
    { exists [nsLookup (effectiveNamespace req' u)]. rewrite Hcalls.
      split; [reflexivity|]. split; [|reflexivity].
      right. eexists. split; [apply effectiveNamespace_nonempty|reflexivity]. }
    split.
    { intros Hi. rewrite (Hinit Hi). auto. }
    intros _ Hno. rewrite Hset in Hno. discriminate.
Qed.

(* ===================================================================== *)
(** ** More of the label logic                                           *)
(* ===================================================================== *)

(** X9.  One source label is enough.  For a Pod that has exactly one of
    appName and car_id, with a value of plain characters, the empty one
    included, that value is the service value: the patch is the one
    operation that adds it when the service key is absent, the one
    operation that replaces another value, and there is no patch when it is
    already there. *)
Theorem single_source_label (env : Env) (ar : AdmissionReview) (w : World)
    (req : AdmissionRequest) (u : Unstructured) (cs : Clientset)
    (ns : NamespaceObj) (m : gmap string string) (v : string) :
  PodRequest env ar w req u cs ->
  NamespacesGet cs (effectiveNamespace req u) = inl ns ->
  GetLabels u = Some m ->
  (m !! "appName" = Some v /\ m !! "car_id" = None)
  \/ (m !! "appName" = None /\ m !! "car_id" = Some v) ->
  Json.plainString v = true ->
  exists resp,
    fst (addLabel env ar w) = Done (Some resp, None)
    /\ match m !! "service" with
       | None =>
           Patch resp = Some (patchAddKey v)
           /\ Json.readPatch (patchAddKey v) = Some [addServiceOp v]
       | Some old =>
           if decide (old = v) then Patch resp = None
           else
             Patch resp = Some (patchReplaceKey v)
             /\ Json.readPatch (patchReplaceKey v)
                = Some [replaceServiceOp v]
       end.
Proof.
  intros Hpod Hns Hl Hone Hplain.
  exists (labelDecision (UID req) (GetLabels u)).
  split. { rewrite (addLabel_pod env ar w req u cs Hpod), Hns. reflexivity. }
  rewrite labelDecision_cases, Hl.
  assert (Hc : specCandidate (Some m) = Some v).
  { unfold specCandidate. simpl.
    destruct Hone as [[-> ->]|[-> ->]]; reflexivity. }
  rewrite Hc. unfold serviceLabelKey. simpl lookupLabel.
  destruct (m !! "service") as [old|].
  - destruct (decide (old = v)); [reflexivity|].
    split; [reflexivity|]. apply readPatch_patchReplaceKey, Hplain.
  - split; [reflexivity|]. apply readPatch_patchAddKey, Hplain.
Qed.

Lemma single_source_label_witness :
  exists resp,
    fst (addLabel (Demo.podEnv (Some Demo2.appOnlyLabels)) (Demo.review "")
           Demo.freshWorld) = Done (Some resp, None)
    /\ (Patch resp = Some (patchReplaceKey "nginx")
        /\ Json.readPatch (patchReplaceKey "nginx")
           = Some [replaceServiceOp "nginx"]).
Proof.
  apply (single_source_label (Demo.podEnv (Some Demo2.appOnlyLabels))
           (Demo.review "") Demo.freshWorld (Demo.request "")
           (Demo.object "Pod" (Some Demo2.appOnlyLabels)) Demo.okClient
           {| NsName := "default"; NsLabels := None |}
           Demo2.appOnlyLabels "nginx").
  - constructor; reflexivity.
  - reflexivity.
  - reflexivity.
  - left. split; reflexivity.
  - reflexivity.
Defined.

(** X10.  Only three labels count.  Two Pod requests with the same uid
    whose objects agree on appName, car_id and service get the same
    response, whatever else their labels hold; a nil labels map and an
    empty one are treated alike. *)
Theorem decision_reads_three_labels (env env' : Env)
    (ar ar' : AdmissionReview) (w w' : World) (req req' : AdmissionRequest)
    (u u' : Unstructured) (cs cs' : Clientset) (ns ns' : NamespaceObj) :
  PodRequest env ar w req u cs ->
  NamespacesGet cs (effectiveNamespace req u) = inl ns ->
  PodRequest env' ar' w' req' u' cs' ->
  NamespacesGet cs' (effectiveNamespace req' u') = inl ns' ->
  UID req = UID req' ->
  lookupLabel (GetLabels u) "appName" = lookupLabel (GetLabels u') "appName" ->
  lookupLabel (GetLabels u) "car_id" = lookupLabel (GetLabels u') "car_id" ->
  lookupLabel (GetLabels u) "service" = lookupLabel (GetLabels u') "service" ->
  fst (addLabel env ar w) = fst (addLabel env' ar' w').
Proof.
  intros Hpod Hns Hpod' Hns' Huid Ha Hc Hs.
  rewrite (addLabel_pod env ar w req u cs Hpod), Hns.
  rewrite (addLabel_pod env' ar' w' req' u' cs' Hpod'), Hns'. simpl.
  rewrite !labelDecision_cases. unfold specCandidate, serviceLabelKey.
  rewrite Ha, Hc, Hs, Huid. reflexivity.
Qed.

Lemma decision_reads_three_labels_witness :
  fst (addLabel (Demo.podEnv None) (Demo.review "") Demo.freshWorld)
  = fst (addLabel (Demo.podEnv (Some ∅)) (Demo.review "default")
           Demo2.readyWorld).
Proof.
  apply (decision_reads_three_labels (Demo.podEnv None) (Demo.podEnv (Some ∅))
           (Demo.review "") (Demo.review "default")
           Demo.freshWorld Demo2.readyWorld
           (Demo.request "") (Demo.request "default")
           (Demo.object "Pod" None) (Demo.object "Pod" (Some ∅))
           Demo.okClient Demo.okClient
           {| NsName := "default"; NsLabels := None |}
           {| NsName := "default"; NsLabels := None |});
    try reflexivity; constructor; reflexivity.
Defined.

(** X11.  The patch fits the object it was computed for.  When a patch is
    attached and the candidate is made of plain characters, the patch
    applies to the labels of the pod: the replace finds its key, the add
    finds the labels map.  The result holds the candidate under service and
    every other label as before, and for these labels addLabel has nothing
    left to do. *)
Theorem emitted_patch_applies (env : Env) (ar : AdmissionReview) (w : World)
    (req : AdmissionRequest) (u : Unstructured) (cs : Clientset)
    (ns : NamespaceObj) (cand : string) :
  PodRequest env ar w req u cs ->
  NamespacesGet cs (effectiveNamespace req u) = inl ns ->
  specCandidate (GetLabels u) = Some cand ->
  lookupLabel (GetLabels u) "service" <> Some cand ->
  Json.plainString cand = true ->
  exists p patched,
    fst (addLabel env ar w)
    = Done (Some (withPatch (allowResponse (UID req)) p), None)
    /\ PatchApply.applyPatch p (GetLabels u) = Some (Some patched)
    /\ patched !! "service" = Some cand
    /\ (forall k, k <> "service" ->
          patched !! k = lookupLabel (GetLabels u) k)
    /\ labelDecision (UID req) (Some patched) = allowResponse (UID req).
Proof.
  intros Hpod Hns Hcand Hdiff Hplain.
  rewrite (addLabel_pod env ar w req u cs Hpod), Hns. simpl fst.
  rewrite labelDecision_cases, Hcand. unfold serviceLabelKey.
  pose proof (labelDecision_idempotent (UID req) (GetLabels u) cand Hcand)
    as Hidem.
  destruct (GetLabels u) as [m|] eqn:Hl; [|discriminate Hcand].
  simpl lookupLabel in *.
  unfold applyServicePatch, serviceLabelKey in Hidem. simpl in Hidem.
  assert (Hother : forall k, k <> "service" ->
                     <["service" := cand]> m !! k = m !! k).
  { intros k Hk. apply lookup_insert_ne. congruence. }
  destruct (m !! "service") as [old|] eqn:Hold.
  - destruct (decide (old = cand)) as [->|Hne]; [congruence|].
    exists (patchReplaceKey cand), (<["service" := cand]> m).
    split; [reflexivity|]. split.
    { unfold PatchApply.applyPatch.
      rewrite (readPatch_patchReplaceKey cand Hplain). simpl.
      unfold PatchApply.applyOperation. simpl. rewrite Hold. reflexivity. }
    split; [apply lookup_insert_eq|]. split; [exact Hother|exact Hidem].
  - exists (patchAddKey cand), (<["service" := cand]> m).
    split; [reflexivity|]. split.
    { unfold PatchApply.applyPatch.
      rewrite (readPatch_patchAddKey cand Hplain). reflexivity. }
    split; [apply lookup_insert_eq|]. split; [exact Hother|exact Hidem].
Qed.

Lemma emitted_patch_applies_witness :
  exists p patched,
    fst (addLabel (Demo.podEnv (Some Demo.nginxLabels)) (Demo.review "")
           Demo.freshWorld)
    = Done (Some (withPatch (allowResponse (UID (Demo.request ""))) p), None)
    /\ PatchApply.applyPatch p (Some Demo.nginxLabels) = Some (Some patched)
    /\ patched !! "service" = Some "nginx-01234"
    /\ (forall k, k <> "service" ->
          patched !! k = lookupLabel (Some Demo.nginxLabels) k)
    /\ labelDecision (UID (Demo.request "")) (Some patched)
       = allowResponse (UID (Demo.request "")).
Proof.
  apply (emitted_patch_applies (Demo.podEnv (Some Demo.nginxLabels))
           (Demo.review "") Demo.freshWorld (Demo.request "")
           (Demo.object "Pod" (Some Demo.nginxLabels)) Demo.okClient
           {| NsName := "default"; NsLabels := None |} "nginx-01234").
  - constructor; reflexivity.
  - reflexivity.
  - reflexivity.
  - vm_compute. discriminate.
  - reflexivity.
Defined.

(** X12.  The service value does not tell its sources apart: a pod with
    only appName = a-c and a pod with appName = a and car_id = c have the
    same candidate, and with the same service label the same decision. *)
Theorem service_value_collides (uid : string) (m1 m2 : gmap string string)
    (a c : string) :
  m1 !! "appName" = Some (a +:+ "-" +:+ c) ->
  m1 !! "car_id" = None ->
  m2 !! "appName" = Some a ->
  m2 !! "car_id" = Some c ->
  m1 !! "service" = m2 !! "service" ->
  deriveServiceVal (Some m1) = Some (a +:+ "-" +:+ c)
  /\ deriveServiceVal (Some m2) = Some (a +:+ "-" +:+ c)
  /\ labelDecision uid (Some m1) = labelDecision uid (Some m2).
Proof.
  intros H1a H1c H2a H2c Hs.
  assert (E1 : specCandidate (Some m1) = Some (a +:+ "-" +:+ c)).
  { unfold specCandidate. simpl. rewrite H1a, H1c. reflexivity. }
  assert (E2 : specCandidate (Some m2) = Some (a +:+ "-" +:+ c)).
  { unfold specCandidate. simpl. rewrite H2a, H2c. reflexivity. }
  rewrite !deriveServiceVal_spec. split; [exact E1|]. split; [exact E2|].
  rewrite !labelDecision_cases, E1, E2. unfold serviceLabelKey. simpl.
  rewrite Hs. reflexivity.
Qed.

Lemma service_value_collides_witness :
  deriveServiceVal (Some Demo2.dashedLabels) = Some "nginx-01234"
  /\ deriveServiceVal (Some Demo.nginxLabels) = Some "nginx-01234"
  /\ labelDecision "uid" (Some Demo2.dashedLabels)
     = labelDecision "uid" (Some Demo.nginxLabels).
Proof.
  apply (service_value_collides "uid" Demo2.dashedLabels Demo.nginxLabels
           "nginx" "01234"); reflexivity.
Defined.

(* ===================================================================== *)
(** ** The Content-Type header                                           *)
(* ===================================================================== *)

(** X13.  parseRequest looks at the first value of the Content-Type header
    and at nothing else of the headers: a request without the header, or
    with an empty list of values, is turned away, and values after the
    first make no difference. *)
Theorem parseRequest_reads_first_content_type (env : Env) (r : HttpRequest) :
  (Header r !! "Content-Type" = None \/ Header r !! "Content-Type" = Some [] ->
   parseRequest env r = (None, Some ErrContentType))
  /\ (forall v rest (h : gmap string (list string)) uri,
        Header r !! "Content-Type" = Some (v :: rest) ->
        h !! "Content-Type" = Some [v] ->
        parseRequest env r
        = parseRequest env {| Header := h; Body := Body r;
                              RequestURI := uri |}).
Proof.
  split.
  - intros H. unfold parseRequest, Header_Get.
    destruct H as [-> | ->]; reflexivity.
  - intros v rest h uri Hr Hh. unfold parseRequest, Header_Get. simpl.
    rewrite Hr, Hh. reflexivity.
Qed.

Lemma parseRequest_reads_first_content_type_witness :
  let env := Demo.podEnv (Some Demo.nginxLabels) in
  parseRequest env (Demo.jsonRequest []) = (None, Some ErrContentType)
  /\ parseRequest env (Demo.jsonRequest ["application/json"; "text/plain"])
     = parseRequest env
         {| Header := <["Content-Type" := ["application/json"]]> ∅;
            Body := Body (Demo.jsonRequest ["application/json"; "text/plain"]);
            RequestURI := "/" |}.
Proof.
  intros env. split.
  - apply (parseRequest_reads_first_content_type env (Demo.jsonRequest [])).
    right. reflexivity.
  - destruct (parseRequest_reads_first_content_type env
                (Demo.jsonRequest ["application/json"; "text/plain"]))
      as [_ H].
    apply (H "application/json" ["text/plain"]); reflexivity.
Defined.

(* ===================================================================== *)
(** ** Start-up: the port and the kubeconfig                             *)
(* ===================================================================== *)

(** X14.  The listen address always has a port: getPort returns a colon
    followed by a non-empty port, the value of PORT when it is set and 8080
    when it is unset or empty. *)
Theorem getPort_has_port (env : Env) :
  exists port,
    getPort env = ":" +:+ port
    /\ port <> ""
    /\ (Getenv env "PORT" <> "" -> port = Getenv env "PORT")
    /\ (Getenv env "PORT" = "" -> port = "8080").
Proof.
  unfold getPort. destruct (String.eqb (Getenv env "PORT") "") eqn:E.
  - apply String.eqb_eq in E. exists "8080".
    split; [reflexivity|]. split; [discriminate|]. split; [congruence|auto].
  - apply String.eqb_neq in E. exists (Getenv env "PORT").
    split; [reflexivity|]. split; [exact E|]. split; [auto|congruence].
Qed.

(** X15.  Where the client configuration comes from.  With an in-cluster
    configuration the kubeconfig is not consulted.  Without one the
    kubeconfig is read from KUBECONFIG, else from .kube/config under HOME,
    else under USERPROFILE; when that fails too the error returned is the
    kubeconfig's, and the in-cluster error is not part of it. *)
Theorem initializeClient_configuration (env : Env) :
  (forall config,
     InClusterConfig env = inl config ->
     initializeClient env
     = match NewForConfig env config with
       | inl c => (Some c, None)
       | inr err => (None, Some (ErrCreateClientset err))
       end)
  /\ (forall e1,
        InClusterConfig env = inr e1 ->
        let home := if decide (Getenv env "HOME" = "")
                    then Getenv env "USERPROFILE" else Getenv env "HOME" in
        let path := if decide (Getenv env "KUBECONFIG" = "")
                    then filepath_Join env [home; ".kube"; "config"]
                    else Getenv env "KUBECONFIG" in
        getKubeConfigPath env = path
        /\ initializeClient env
           = match BuildConfigFromFlags env "" path with
             | inr e2 => (None, Some (ErrBuildKubeconfig e2))
             | inl config =>
                 match NewForConfig env config with
                 | inl c => (Some c, None)
                 | inr err => (None, Some (ErrCreateClientset err))
                 end
             end).
Proof.
  split.
  - intros config H. unfold initializeClient. rewrite H. reflexivity.
  - intros e1 H home path.
    assert (Hpath : getKubeConfigPath env = path).
    { subst path home. unfold getKubeConfigPath, homeDir.
      destruct (decide (Getenv env "KUBECONFIG" = "")) as [E|E].
      - rewrite E. simpl.
        destruct (decide (Getenv env "HOME" = "")) as [E'|E'].
        + rewrite E'. reflexivity.
        + apply String.eqb_neq in E'. rewrite E'. reflexivity.
      - apply String.eqb_neq in E. rewrite E. reflexivity. }
    split; [exact Hpath|].
    unfold initializeClient. rewrite H, Hpath.
    destruct (BuildConfigFromFlags env "" path); reflexivity.
Qed.

Lemma initializeClient_configuration_witness :
  getKubeConfigPath (Demo2.withPort "9443") = "/root/.kube/config"
  /\ initializeClient (Demo2.withPort "9443")
     = (None, Some (ErrBuildKubeconfig "no kubeconfig")).
Proof.
  destruct (initializeClient_configuration (Demo2.withPort "9443"))
    as [_ H].
  apply (H "not in a cluster"). reflexivity.
Defined.

(* ===================================================================== *)
(** ** The first version of addLabel                                     *)
(* ===================================================================== *)

Section OriginalRuns.

Import Json.

Variable env : Env.

(** The run of the first version once the client is there and the object
    projects: the client is asked for the namespace of the request as it
    is, and sends a GET unless the name is empty. *)
Lemma Original_addLabel_projected (ar : AdmissionReview) (w : World)
    req u cs :
  fst (GetKubeClient env w) = Done (Some cs, None) ->
  Request ar = Some req ->
  projectObject env req = Done (inl u) ->
  Original.addLabel env ar w
  = (Done match Namespaces_Get cs (Namespace req) with
          | inr e => (None, Some (ErrFetchNamespace (Namespace req) e))
          | inl ns =>
              match lookupLabel (NsLabels ns) "team" with
              | None => (Some (allowResponse (UID req)), None)
              | Some team =>
                  (Some (Original.teamDecision (UID req) (GetLabels u) team),
                   None)
              end
          end,
     if String.eqb (Namespace req) "" then snd (GetKubeClient env w)
     else logCall (nsLookup (Namespace req)) (snd (GetKubeClient env w))).
Proof.
  intros Hc Hr Hp. unfold Original.addLabel, bind.
  destruct (GetKubeClient env w) as [o w1]. simpl in *. subst o.
  rewrite Hr. simpl. unfold projectObject in Hp.
  destruct (Convert_runtime_RawExtension_To_runtime_Object env _) as [obj|err];
    [|discriminate].
  destruct (ToUnstructured env obj) as [[u'|err]|msg]; try discriminate.
  injection Hp as ->. simpl.
  destruct (Namespaces_Get cs (Namespace req)) as [ns|e]; [|reflexivity].
  rewrite mapIndex_lookupLabel.
  destruct (lookupLabel (NsLabels ns) "team"); reflexivity.
Qed.

Lemma readPatch_team_document (pre v : string) toks ops :
  lexRun LStart pre = Some (LStr "", toks) ->
  plainString v = true ->
  match prun (PValue [])
          (toks ++ [TString v; TRBrace; TRBracket])%list with
  | Some (JArray js) => readOperations js
  | _ => None
  end = Some ops ->
  readPatch (pre +:+ v +:+ Original.teamClose) = Some ops.
Proof.
  intros Hpre Hv Hops. unfold readPatch, parse, lex.
  rewrite (lexRun_value pre v Original.teamClose toks
             [TString v; TRBrace; TRBracket] LStart Hpre Hv)
    by reflexivity.
  simpl lexEnd. cbv iota. rewrite app_nil_r. exact Hops.
Qed.

End OriginalRuns.

Lemma original_patches_read (team : string) :
  Json.plainString team = true ->
  let addTeam :=
    {| Json.op := Json.OpAdd; Json.path := "/metadata/labels/team";
       Json.value := Some (Json.JString team); Json.from := None |} in
  Json.readPatch (Original.patchAddMapAndTeam team)
  = Some [addLabelsMapOp; addTeam]
  /\ Json.readPatch (Original.patchAddTeam team) = Some [addTeam]
  /\ PatchApply.applyPatch (Original.patchAddMapAndTeam team) None
     = Some (Some (<["team" := team]> ∅)).
Proof.
  intros Hplain addTeam.
  assert (H2 : Json.readPatch (Original.patchAddMapAndTeam team)
               = Some [addLabelsMapOp; addTeam]).
  { eapply readPatch_team_document;
      [vm_compute; reflexivity | exact Hplain | reflexivity]. }
  split; [exact H2|]. split.
  - eapply readPatch_team_document;
      [vm_compute; reflexivity | exact Hplain | reflexivity].
  - unfold PatchApply.applyPatch. rewrite H2. reflexivity.
Qed.

(** X16.  The first version copies the team label of the namespace onto
    any object, of whatever kind, that has none.  For a request with a
    namespace, and team = T on that namespace: an object without a labels
    map gets the two operations, add /metadata/labels = {} and then add
    /metadata/labels/team = T, which applied to the absent map leave exactly
    team = T; an object whose labels lack the key gets the one add; an
    object that has a team label gets no patch, even when its value is not
    T. *)
Theorem original_copies_team_label (env : Env) (ar : AdmissionReview)
    (w : World) (req : AdmissionRequest) (u : Unstructured) (cs : Clientset)
    (ns : NamespaceObj) (team : string) :
  fst (GetKubeClient env w) = Done (Some cs, None) ->
  Request ar = Some req ->
  projectObject env req = Done (inl u) ->
  Namespace req <> "" ->
  NamespacesGet cs (Namespace req) = inl ns ->
  lookupLabel (NsLabels ns) "team" = Some team ->
  exists resp,
    fst (Original.addLabel env ar w) = Done (Some resp, None)
    /\ Allowed resp = true
    /\ RespUID resp = UID req
    /\ Patch resp
       = match GetLabels u with
         | None => Some (Original.patchAddMapAndTeam team)
         | Some m =>
             match m !! "team" with
             | None => Some (Original.patchAddTeam team)
             | Some _ => None
             end
         end
    /\ (Json.plainString team = true ->
        let addTeam :=
          {| Json.op := Json.OpAdd; Json.path := "/metadata/labels/team";
             Json.value := Some (Json.JString team); Json.from := None |} in
        Json.readPatch (Original.patchAddMapAndTeam team)
        = Some [addLabelsMapOp; addTeam]
        /\ Json.readPatch (Original.patchAddTeam team) = Some [addTeam]
        /\ PatchApply.applyPatch (Original.patchAddMapAndTeam team) None
           = Some (Some (<["team" := team]> ∅))).
Proof.
  intros Hc Hr Hp Hname Hns Hteam.
  exists (Original.teamDecision (UID req) (GetLabels u) team).
  split.
  { rewrite (Original_addLabel_projected env ar w req u cs Hc Hr Hp).
    rewrite (Namespaces_Get_nonempty cs _ Hname), Hns, Hteam. reflexivity. }
  split.
  { unfold Original.teamDecision.
    destruct (isNil (GetLabels u)); [reflexivity|].
    destruct (negb _); reflexivity. }
  split.
  { unfold Original.teamDecision.
    destruct (isNil (GetLabels u)); [reflexivity|].
    destruct (negb _); reflexivity. }
  split.
  { unfold Original.teamDecision, hasLabel. rewrite mapIndex_lookupLabel.
    destruct (GetLabels u) as [m|]; simpl; [|reflexivity].
    destruct (m !! "team"); reflexivity. }
  exact (original_patches_read team).
Qed.

Lemma original_copies_team_label_witness :
  exists resp,
    fst (Original.addLabel (Demo2.teamEnv None) (Demo.review "default")
           Demo.freshWorld) = Done (Some resp, None)
    /\ Allowed resp = true
    /\ RespUID resp = UID (Demo.request "default")
    /\ Patch resp = Some (Original.patchAddMapAndTeam "platform")
    /\ (Json.plainString "platform" = true ->
        let addTeam :=
          {| Json.op := Json.OpAdd; Json.path := "/metadata/labels/team";
             Json.value := Some (Json.JString "platform");
             Json.from := None |} in
        Json.readPatch (Original.patchAddMapAndTeam "platform")
        = Some [addLabelsMapOp; addTeam]
        /\ Json.readPatch (Original.patchAddTeam "platform") = Some [addTeam]
        /\ PatchApply.applyPatch (Original.patchAddMapAndTeam "platform") None
           = Some (Some (<["team" := "platform"]> ∅))).
Proof.
  apply (original_copies_team_label (Demo2.teamEnv None)
           (Demo.review "default") Demo.freshWorld (Demo.request "default")
           (Demo.object "Pod" None) Original.teamClient
           {| NsName := "default";
              NsLabels := Some (<["team" := "platform"]> ∅) |} "platform");
    try reflexivity.
  vm_compute. discriminate.
Defined.


